(** * The Flow controller (pkg/flow/flow.go)

    A shallow embedding of the top-level controller of the component
    graph runtime: [newFlow], [LoadFile], [ComponentInfos], [newFromNode],
    the event loop [run] and [Close].

    Each Go package the controller is built on gets a module of its own.
    Packages whose sources are at hand only through their use in flow.go
    (logging, controller.Loader, controller.Scheduler) are interfaces:
    type classes whose operations are explicit state transformers. *)

From Stdlib Require Import List String Bool Arith Lia.
Import ListNotations.
Local Open Scope string_scope.
Local Open Scope nat_scope.
Local Open Scope list_scope.

(** ** Go runtime: channels, errors, panics *)

(** Buffered channels of [struct{}]. The elements carry no data, so a
    channel is its capacity, the number of buffered elements, and whether
    it has been closed. *)
Module Chan.

Record t : Type := mk { cap : nat; len : nat; closed : bool }.

(** [make(chan struct{}, n)] *)
Definition make (n : nat) : t := mk n 0 false.

(** [ch <- struct{}{}]: [None] when the send has to block (buffer full). *)
Definition send (ch : t) : option t :=
  if len ch <? cap ch then Some (mk (cap ch) (S (len ch)) (closed ch)) else None.

(** [select { case ch <- struct{}{}: default: }] *)
Definition try_send (ch : t) : t :=
  match send ch with
  | Some ch' => ch'
  | None => ch
  end.

(** [<-ch]: [None] when the receive has to block. A closed channel whose
    buffer is empty never blocks a receiver. *)
Definition recv (ch : t) : option t :=
  match len ch with
  | S n => Some (mk (cap ch) n (closed ch))
  | O => if closed ch then Some ch else None
  end.

(** [close(ch)] *)
Definition close (ch : t) : t := mk (cap ch) (len ch) true.

(** A notification is waiting in the buffer. *)
Definition pending (ch : t) : bool := 0 <? len ch.

End Chan.

(** ** pkg/river/diag *)

Module diag.

Inductive Severity : Type := SeverityLevelWarn | SeverityLevelError.

Record Diagnostic : Type := mkDiagnostic {
  Severity_of : Severity;
  Message : string
}.

Definition Diagnostics : Type := list Diagnostic.

Definition isError (d : Diagnostic) : bool :=
  match Severity_of d with
  | SeverityLevelError => true
  | SeverityLevelWarn => false
  end.

(** Modelled from the spec: the diag package is not part of the sources at
    hand.  flow.go consults two different methods of the diagnostics that
    Apply returns.  [HasErrors] reports whether some diagnostic is of error
    severity. *)
Definition HasErrors (ds : Diagnostics) : bool := existsb isError ds.

End diag.

(** Go's [error] interface, restricted to the values flow.go builds or
    passes along.  [None : option error] is the nil error. *)
Inductive error : Type :=
| errorString (msg : string)
| wrapError (msg : string) (err : error)
| diagError (ds : diag.Diagnostics).

(** A Go call either returns or panics with a value. *)
Inductive result (A : Type) : Type :=
| Ok (a : A)
| Panic (v : error).
Arguments Ok {A} a.
Arguments Panic {A} v.

(** The runtime error of a method that reads through a nil receiver. *)
Definition nilPointerDereference : error :=
  errorString "invalid memory address or nil pointer dereference".

(** Modelled from the spec: the diag package is not part of the sources at
    hand.  [ErrorOrNil] is the nil error for an empty list of diagnostics
    and the list itself, as an error, otherwise. *)
Definition ErrorOrNil (ds : diag.Diagnostics) : option error :=
  match ds with
  | [] => None
  | _ :: _ => Some (diagError ds)
  end.

(** ** io and pkg/flow/logging *)

Module io.

Inductive Writer : Type := Discard | Stderr.

End io.

Module logging.

Record Options : Type := mkOptions {
  Level : string;
  Format : string
}.

(** The logging package as flow.go uses it.  [New] builds a logger or
    fails; [Update] reconfigures a logger in place and may fail. *)
Class Package : Type := {
  Logger : Type;
  DefaultOptions : Options;
  New : io.Writer -> Options -> Logger + error;
  Update : Logger -> Options -> Logger * option error
}.

End logging.

(** ** component: health of a component *)

Module component.

Inductive HealthType : Type :=
| HealthTypeUnknown
| HealthTypeHealthy
| HealthTypeUnhealthy
| HealthTypeExited.

(** Modelled from the spec: the component package is not part of the
    sources at hand.  Health states serialise as the strings "unknown",
    "healthy", "unhealthy" and "exited". *)
Definition HealthType_String (h : HealthType) : string :=
  match h with
  | HealthTypeUnknown => "unknown"
  | HealthTypeHealthy => "healthy"
  | HealthTypeUnhealthy => "unhealthy"
  | HealthTypeExited => "exited"
  end.

(** [time.Time], as a number of ticks. *)
Definition Time : Type := nat.

Record Health : Type := mkHealth {
  Health_of : HealthType;
  Message : string;
  UpdateTime : Time
}.

(** Arguments and exports of a component are opaque to the controller. *)
Definition Value : Type := string.

End component.

(** ** pkg/flow/internal/dag *)

Module dag.

(** A graph node is known to flow.go by its [NodeID()] only. *)
Record Node : Type := mkNode { NodeID : string }.

Record Edge : Type := mkEdge { From : Node; To : Node }.

End dag.

(** ** pkg/flow/internal/controller *)

Module controller.

(** What flow.go reads from a [*ComponentNode], at the time it reads it.
    [CurrentHealth] is what the call returns then: the node's health is
    kept up to date by the node itself and by the workers of the
    Scheduler, which are outside this development, so two reads of the
    same node at different times need not give the same health. *)
Record ComponentNode : Type := mkComponentNode {
  NodeID : string;
  Label : string;
  ComponentName : string;
  CurrentHealth : component.Health;
  Arguments : component.Value;
  Exports : component.Value
}.

(** Node identity is identity of NodeIDs, which are unique per controller. *)
Definition sameNode (a b : ComponentNode) : bool :=
  String.eqb (NodeID a) (NodeID b).

(** Modelled from the spec: the Queue is not part of the sources at hand.
    It is a coalescing FIFO of component nodes with a notification channel
    of capacity one. *)
Record Queue : Type := mkQueue {
  queued : list ComponentNode;
  updateCh : Chan.t
}.

Definition NewQueue : Queue := mkQueue [] (Chan.make 1).

(** Modelled from the spec: [Enqueue(n)] adds n if it is not already
    present and wakes at most one waiter; if n is present it is a no-op. *)
Definition Enqueue (q : Queue) (c : ComponentNode) : Queue :=
  if existsb (sameNode c) (queued q) then q
  else mkQueue (queued q ++ [c]) (Chan.try_send (updateCh q)).

(** Modelled from the spec: [TryDequeue()] returns one node, or nil if the
    queue is empty; it never blocks. *)
Definition TryDequeue (q : Queue) : option ComponentNode * Queue :=
  match queued q with
  | [] => (None, q)
  | c :: rest => (Some c, mkQueue rest (updateCh q))
  end.

(** [Chan()]: the notification channel. *)
Definition Chan (q : Queue) : Chan.t := updateCh q.

(** The effect on the queue of a receive from [Chan()]. *)
Definition withChan (q : Queue) (ch : Chan.t) : Queue := mkQueue (queued q) ch.

(** The globals handed to every component. [OnExportsChange] is a closure
    over the controller's queue: a function from the node to a queue
    transformer. *)
Record ComponentGlobals (Logger Registerer : Type) : Type := mkComponentGlobals {
  Logger_of : Logger;
  DataPath : string;
  OnExportsChange : ComponentNode -> Queue -> Queue;
  Registerer_of : Registerer;
  HTTPListenAddr : string
}.
Arguments mkComponentGlobals {Logger Registerer}.
Arguments Logger_of {Logger Registerer}.
Arguments DataPath {Logger Registerer}.
Arguments OnExportsChange {Logger Registerer}.
Arguments Registerer_of {Logger Registerer}.
Arguments HTTPListenAddr {Logger Registerer}.

(** The Loader and the Scheduler as flow.go uses them.  Every operation
    takes the receiver's state and returns the new one.  A Loader operation
    that evaluates components also returns the nodes whose exports changed
    while it ran, in order: for each of them the component called the
    [OnExportsChange] callback of the globals. *)
Class Package {L : logging.Package} : Type := {
  Block : Type;
  Registerer : Type;
  Loader : Type;
  Scheduler : Type;
  NewLoader : ComponentGlobals logging.Logger Registerer -> Loader;
  Apply : Loader -> list Block -> Loader * diag.Diagnostics * list ComponentNode;
  EvaluateDependencies : Loader -> ComponentNode -> Loader * list ComponentNode;
  Components : Loader -> list ComponentNode;
  OriginalGraph_Edges : Loader -> list dag.Edge;
  NewScheduler : Scheduler;
  Synchronize : Scheduler -> list ComponentNode -> Scheduler * option error;
  Close : Scheduler -> Scheduler * option error
}.

End controller.

(** ** Package flow: the controller *)

Section Flow.

Context {L : logging.Package} {C : controller.Package}.

(** Options holds static options for a flow controller.  [Logger] is a
    pointer: [None] is nil. *)
Record Options : Type := mkOptions {
  Logger : option logging.Logger;
  DataPath : string;
  Reg : controller.Registerer;
  HTTPListenAddr : string
}.

(** A parsed configuration file, as LoadFile reads it. *)
Record File : Type := mkFile {
  Logging : logging.Options;
  Components : list controller.Block
}.

(** Flow is the Flow system.  [log] is a pointer ([None] is nil).  The
    context made by newFlow is [ctxDone]: [cancel] sets it.  [globals] are
    the component globals the loader was built with; the loader keeps them
    for the components it creates.  The lock [loadMut] serialises LoadFile
    and ComponentInfos: a call is one atomic transition of the state.

    The logger is one object, which [log], the globals and, when they have
    one, the options all point to.  Its current state is the one in [log],
    which [Update] replaces; the logger fields of [globals] and [opts]
    stand for the pointer and hold the logger as it was when the
    controller was made. *)
Record Flow : Type := mkFlow {
  log : option logging.Logger;
  opts : Options;
  updateQueue : controller.Queue;
  sched : controller.Scheduler;
  loader : controller.Loader;
  globals : controller.ComponentGlobals logging.Logger controller.Registerer;
  ctxDone : bool;
  exited : Chan.t;
  loadFinished : Chan.t;
  loadedOnce : bool
}.

Definition withLog (c : Flow) (l : option logging.Logger) : Flow :=
  mkFlow l (opts c) (updateQueue c) (sched c) (loader c) (globals c)
         (ctxDone c) (exited c) (loadFinished c) (loadedOnce c).

Definition withUpdateQueue (c : Flow) (q : controller.Queue) : Flow :=
  mkFlow (log c) (opts c) q (sched c) (loader c) (globals c)
         (ctxDone c) (exited c) (loadFinished c) (loadedOnce c).

Definition withSched (c : Flow) (s : controller.Scheduler) : Flow :=
  mkFlow (log c) (opts c) (updateQueue c) s (loader c) (globals c)
         (ctxDone c) (exited c) (loadFinished c) (loadedOnce c).

Definition withLoader (c : Flow) (l : controller.Loader) : Flow :=
  mkFlow (log c) (opts c) (updateQueue c) (sched c) l (globals c)
         (ctxDone c) (exited c) (loadFinished c) (loadedOnce c).

Definition withCtxDone (c : Flow) (b : bool) : Flow :=
  mkFlow (log c) (opts c) (updateQueue c) (sched c) (loader c) (globals c)
         b (exited c) (loadFinished c) (loadedOnce c).

Definition withExited (c : Flow) (ch : Chan.t) : Flow :=
  mkFlow (log c) (opts c) (updateQueue c) (sched c) (loader c) (globals c)
         (ctxDone c) ch (loadFinished c) (loadedOnce c).

Definition withLoadFinished (c : Flow) (ch : Chan.t) : Flow :=
  mkFlow (log c) (opts c) (updateQueue c) (sched c) (loader c) (globals c)
         (ctxDone c) (exited c) ch (loadedOnce c).

Definition withLoadedOnce (c : Flow) (b : bool) : Flow :=
  mkFlow (log c) (opts c) (updateQueue c) (sched c) (loader c) (globals c)
         (ctxDone c) (exited c) (loadFinished c) b.

(** The components that changed their exports call the callback of the
    globals, one after the other. *)
Definition exportsChanged (c : Flow) (changed : list controller.ComponentNode) : Flow :=
  withUpdateQueue c
    (fold_left (fun q cn => controller.OnExportsChange (globals c) cn q)
               changed (updateQueue c)).

(** [newFlow]: the controller before its event loop is started. *)
Definition newFlow (o : Options) : result Flow :=
  let made :=
    match Logger o with
    | Some log => Ok log
    | None =>
      match logging.New io.Discard logging.DefaultOptions with
      | inl log => Ok log
      | inr err => Panic err
      end
    end in
  match made with
  | Panic err => Panic err
  | Ok log =>
    let queue := controller.NewQueue in
    let sched := controller.NewScheduler in
    let globals :=
      controller.mkComponentGlobals
        log
        (DataPath o)
        (fun cn queue => controller.Enqueue queue cn)
        (Reg o)
        (HTTPListenAddr o) in
    let loader := controller.NewLoader globals in
    Ok (mkFlow (Some log) o queue sched loader globals
               false (Chan.make 1) (Chan.make 1) false)
  end.

(** [LoadFile] synchronizes the state of the controller with the current
    config file.  It returns the controller and the error handed to the
    caller ([None] is nil). *)
Definition LoadFile (c : Flow) (file : File) : result (Flow * option error) :=
  match log c with
  | None => Panic nilPointerDereference
  | Some l =>
    let (l', err) := logging.Update l (Logging file) in
    let c := withLog c (Some l') in
    match err with
    | Some err => Ok (c, Some (wrapError "error updating logger: " err))
    | None =>
      let '(ld, diags, changed) := controller.Apply (loader c) (Components file) in
      let c := exportsChanged (withLoader c ld) changed in
      if negb (loadedOnce c) && diag.HasErrors diags then
        Ok (c, Some (diagError diags))
      else
        let c := withLoadedOnce c true in
        let c := withLoadFinished c (Chan.try_send (loadFinished c)) in
        Ok (c, ErrorOrNil diags)
    end
  end.

(** ComponentHealth represents the health of a component. *)
Record ComponentHealth : Type := mkComponentHealth {
  State : string;
  Message : string;
  UpdatedTime : component.Time
}.

(** [json.RawMessage]: a byte slice; [[]] is nil. *)
Definition RawMessage : Type := list Byte.byte.

(** ComponentInfo represents a component in flow. *)
Record ComponentInfo : Type := mkComponentInfo {
  Name : string;
  Type_ : string;
  ID : string;
  Label : string;
  References : list string;
  ReferencedBy : list string;
  Health : option ComponentHealth;
  Original : string;
  Arguments : RawMessage;
  Exports : RawMessage;
  DebugInfo : RawMessage
}.

(** One turn of the loop over the edges in [newFromNode]. *)
Definition scanEdge (cn : controller.ComponentNode)
    (acc : list string * list string) (e : dag.Edge) : list string * list string :=
  let (references, referencedBy) := acc in
  if String.eqb (dag.NodeID (dag.From e)) (controller.NodeID cn) then
    (references ++ [dag.NodeID (dag.To e)], referencedBy)
  else if String.eqb (dag.NodeID (dag.To e)) (controller.NodeID cn) then
    (references, referencedBy ++ [dag.NodeID (dag.From e)])
  else (references, referencedBy).

Definition newFromNode (cn : controller.ComponentNode) (edges : list dag.Edge)
    : ComponentInfo :=
  let (references, referencedBy) := fold_left (scanEdge cn) edges ([], []) in
  let h := controller.CurrentHealth cn in
  {| Label := controller.Label cn;
     ID := controller.NodeID cn;
     Name := controller.ComponentName cn;
     Type_ := "block";
     References := references;
     ReferencedBy := referencedBy;
     Health := Some {| State := component.HealthType_String (component.Health_of h);
                       Message := component.Message h;
                       UpdatedTime := component.UpdateTime h |};
     Original := "";
     Arguments := [];
     Exports := [];
     DebugInfo := [] |}.

(** [ComponentInfos] returns the component infos. *)
Definition ComponentInfos (c : Flow) : list ComponentInfo :=
  let cns := controller.Components (loader c) in
  let edges := controller.OriginalGraph_Edges (loader c) in
  map (fun com => newFromNode com edges) cns.

(** *** The event loop [run] and [Close] *)

(** Where the goroutine of [run] stands: at the [select], inside the inner
    [for] that empties the queue, or returned (its deferred calls done). *)
Inductive LoopPC : Type := LoopSelect | LoopDrain | LoopExited.

(** [case <-ctx.Done(): return], then the deferred calls, last first: the
    cancel of the child context, the debug line, [close(c.exited)]. *)
Definition run_Done (c : Flow) : option (result Flow) :=
  if ctxDone c then
    Some match log c with
         | None => Panic nilPointerDereference
         | Some _ => Ok (withExited c (Chan.close (exited c)))
         end
  else None.

(** [case <-c.updateQueue.Chan():], the receive itself. *)
Definition run_Chan (c : Flow) : option Flow :=
  match Chan.recv (controller.Chan (updateQueue c)) with
  | Some ch => Some (withUpdateQueue c (controller.withChan (updateQueue c) ch))
  | None => None
  end.

(** One turn of the inner [for]: [Ok None] is the [break]; otherwise the
    node that was taken and the controller after its dependants were
    evaluated. *)
Definition run_TryDequeue (c : Flow)
    : result (option (controller.ComponentNode * Flow)) :=
  let (updated, q) := controller.TryDequeue (updateQueue c) in
  let c := withUpdateQueue c q in
  match updated with
  | None => Ok None
  | Some updated =>
    match log c with
    | None => Panic nilPointerDereference
    | Some _ =>
      let (ld, changed) := controller.EvaluateDependencies (loader c) updated in
      Ok (Some (updated, exportsChanged (withLoader c ld) changed))
    end
  end.

(** The inner [for] run to its [break] with nothing else scheduled in
    between: the nodes EvaluateDependencies was called on, in order, and
    the controller at the [break].  Evaluating a node can queue further
    nodes, so the loop is bounded by [fuel]. *)
Fixpoint drain (fuel : nat) (c : Flow)
    : option (result (list controller.ComponentNode * Flow)) :=
  match fuel with
  | O => None
  | S fuel =>
    match run_TryDequeue c with
    | Panic v => Some (Panic v)
    | Ok None => Some (Ok ([], c))
    | Ok (Some (updated, c)) =>
      match drain fuel c with
      | Some (Ok (evaluated, c)) => Some (Ok (updated :: evaluated, c))
      | other => other
      end
    end
  end.

(** [case <-c.loadFinished:] the runnables handed to Synchronize and the
    controller afterwards.  An error of Synchronize is only logged. *)
Definition run_loadFinished (c : Flow)
    : option (result (list controller.ComponentNode * Flow)) :=
  match Chan.recv (loadFinished c) with
  | None => None
  | Some ch =>
    let c := withLoadFinished c ch in
    Some match log c with
         | None => Panic nilPointerDereference
         | Some _ =>
           let components := controller.Components (loader c) in
           let runnables := fold_left (fun rs uc => rs ++ [uc]) components [] in
           let (sc, _) := controller.Synchronize (sched c) runnables in
           Ok (runnables, withSched c sc)
         end
  end.

(** Where a caller of [Close] stands: not called, blocked in
    [<-c.exited] after [c.cancel()], or returned with an error. *)
Inductive ClosePC : Type :=
| CloseNotCalled
| CloseWaiting
| CloseReturned (err : option error).

(** [c.cancel()] *)
Definition Close_cancel (c : Flow) : Flow := withCtxDone c true.

(** [<-c.exited; return c.sched.Close()]: [None] while the receive blocks. *)
Definition Close_return (c : Flow) : option (Flow * option error) :=
  match Chan.recv (exited c) with
  | None => None
  | Some ch =>
    let (sc, err) := controller.Close (sched c) in
    Some (withSched (withExited c ch) sc, err)
  end.

(** *** The running controller *)

(** What the controller asked of its collaborators, and the loop's exit. *)
Inductive Event : Type :=
| EvEvaluate (cn : controller.ComponentNode)
| EvSynchronize (runnables : list controller.ComponentNode)
| EvSchedulerClose
| EvLoopExited.

(** The controller with its goroutines: the event loop started by [New],
    the caller of [Close], and what happened so far.  [crashed] is set by a
    panic. *)
Record Sys : Type := mkSys {
  flow : Flow;
  loop : LoopPC;
  closer : ClosePC;
  crashed : bool;
  trace : list Event
}.

(** The atomic actions of the goroutines. *)
Inductive label : Type :=
| CallLoadFile (file : File)
| WorkerExportsChange (cn : controller.ComponentNode)
| CallClose
| CloseResume
| LoopDone
| LoopChan
| LoopTryDequeue
| LoopLoadFinished.

Definition crash (s : Sys) : Sys :=
  mkSys (flow s) (loop s) (closer s) true (trace s).

(** One action; [None] when the action cannot be taken in [s]. *)
Definition exec (s : Sys) (l : label) : option Sys :=
  if crashed s then None else
  match l with
  | CallLoadFile file =>
    match LoadFile (flow s) file with
    | Ok (c, _) => Some (mkSys c (loop s) (closer s) false (trace s))
    | Panic _ => Some (crash s)
    end
  | WorkerExportsChange cn =>
    Some (mkSys (exportsChanged (flow s) [cn]) (loop s) (closer s) false (trace s))
  | CallClose =>
    match closer s with
    | CloseNotCalled =>
      Some (mkSys (Close_cancel (flow s)) (loop s) CloseWaiting false (trace s))
    | _ => None
    end
  | CloseResume =>
    match closer s, Close_return (flow s) with
    | CloseWaiting, Some (c, err) =>
      Some (mkSys c (loop s) (CloseReturned err) false (trace s ++ [EvSchedulerClose]))
    | _, _ => None
    end
  | LoopDone =>
    match loop s, run_Done (flow s) with
    | LoopSelect, Some (Ok c) =>
      Some (mkSys c LoopExited (closer s) false (trace s ++ [EvLoopExited]))
    | LoopSelect, Some (Panic _) => Some (crash s)
    | _, _ => None
    end
  | LoopChan =>
    match loop s, run_Chan (flow s) with
    | LoopSelect, Some c => Some (mkSys c LoopDrain (closer s) false (trace s))
    | _, _ => None
    end
  | LoopTryDequeue =>
    match loop s with
    | LoopDrain =>
      match run_TryDequeue (flow s) with
      | Ok None => Some (mkSys (flow s) LoopSelect (closer s) false (trace s))
      | Ok (Some (updated, c)) =>
        Some (mkSys c LoopDrain (closer s) false (trace s ++ [EvEvaluate updated]))
      | Panic _ => Some (crash s)
      end
    | _ => None
    end
  | LoopLoadFinished =>
    match loop s, run_loadFinished (flow s) with
    | LoopSelect, Some (Ok (runnables, c)) =>
      Some (mkSys c LoopSelect (closer s) false (trace s ++ [EvSynchronize runnables]))
    | LoopSelect, Some (Panic _) => Some (crash s)
    | _, _ => None
    end
  end.

(** A schedule: the actions taken, in order. *)
Fixpoint execs (s : Sys) (ls : list label) : option Sys :=
  match ls with
  | [] => Some s
  | l :: ls =>
    match exec s l with
    | Some s' => execs s' ls
    | None => None
    end
  end.

(** [New] creates and starts a new Flow controller. *)
Definition New (o : Options) : result Sys :=
  match newFlow o with
  | Ok c => Ok (mkSys c LoopSelect CloseNotCalled false [])
  | Panic v => Panic v
  end.

(** The states a controller made by [New] can be in. *)
Definition reachable (o : Options) (s : Sys) : Prop :=
  exists s0 ls, New o = Ok s0 /\ execs s0 ls = Some s.

(** [LoadFile c file] gets as far as Apply, which returns [diags]: the
    logger is there and its reconfiguration succeeds. *)
Definition reachesApply (c : Flow) (file : File) (diags : diag.Diagnostics) : Prop :=
  exists l l' ld changed,
    log c = Some l /\
    logging.Update l (Logging file) = (l', None) /\
    controller.Apply (loader c) (Components file) = (ld, diags, changed).

(** The callback in the globals is the one [newFlow] installs. *)
Definition callbackEnqueues (c : Flow) : Prop :=
  forall cn q, controller.OnExportsChange (globals c) cn q = controller.Enqueue q cn.

(** The load-finished channel has capacity one, holds at most one
    notification and is never closed; nothing is ever buffered in
    [exited]. *)
Definition wf (c : Flow) : Prop :=
  Chan.cap (loadFinished c) = 1 /\ Chan.len (loadFinished c) <= 1 /\
  Chan.closed (loadFinished c) = false /\ Chan.len (exited c) = 0.

(** In a history, every close of the Scheduler comes after the exit of
    the loop. *)
Definition closeAfterExit (t : list Event) : Prop :=
  forall t1 t2, t = t1 ++ EvSchedulerClose :: t2 -> In EvLoopExited t1.

(** What holds of every state of a controller made by [New]. *)
Record invariant (s : Sys) : Prop := mkInvariant {
  inv_running : crashed s = false;
  inv_log : log (flow s) <> None;
  inv_wf : wf (flow s);
  inv_callback : callbackEnqueues (flow s);
  inv_exited : Chan.closed (exited (flow s)) = true <-> loop s = LoopExited;
  inv_sched_close : In EvSchedulerClose (trace s) -> loop s = LoopExited;
  inv_closer : forall err, closer s = CloseReturned err -> loop s = LoopExited;
  inv_loop_exit : loop s = LoopExited -> In EvLoopExited (trace s);
  inv_close_order : closeAfterExit (trace s);
  inv_first_load :
    loadedOnce (flow s) = false ->
    Chan.len (loadFinished (flow s)) = 0 /\
    forall runnables, ~ In (EvSynchronize runnables) (trace s)
}.

End Flow.

(** ** A small instance of the two interfaces

    Enough of a logger, a loader and a scheduler to run the controller on
    concrete configuration files.  A block names its node, the nodes it
    references and the diagnostics its evaluation produces. *)

Module demo.

Definition validFormat (o : logging.Options) : bool :=
  String.eqb (logging.Format o) "logfmt" || String.eqb (logging.Format o) "json".

Definition unrecognized : error := errorString "unrecognized log format".

Definition Logging : logging.Package :=
  {| logging.Logger := io.Writer * logging.Options;
     logging.DefaultOptions := logging.mkOptions "info" "logfmt";
     logging.New := fun w o =>
       if validFormat o then inl (w, o) else inr unrecognized;
     logging.Update := fun l o =>
       if validFormat o then ((fst l, o), None) else (l, Some unrecognized) |}.

Record Block : Type := mkBlock {
  node : controller.ComponentNode;
  refs : list string;
  diags : diag.Diagnostics
}.

Record Loader : Type := mkLoader {
  nodes : list controller.ComponentNode;
  edges : list dag.Edge
}.

Definition edgesOf (b : Block) : list dag.Edge :=
  map (fun r => dag.mkEdge (dag.mkNode (controller.NodeID (node b))) (dag.mkNode r))
      (refs b).

Definition references (ld : Loader) (a b : controller.ComponentNode) : bool :=
  existsb (fun e => String.eqb (dag.NodeID (dag.From e)) (controller.NodeID a)
                    && String.eqb (dag.NodeID (dag.To e)) (controller.NodeID b))
          (edges ld).

(** The nodes that reference the changed node are evaluated again and
    publish new exports in turn. *)
Definition dependants (ld : Loader) (cn : controller.ComponentNode)
    : list controller.ComponentNode :=
  filter (fun n => references ld n cn) (nodes ld).

Definition Controller : @controller.Package Logging :=
  {| controller.Block := Block;
     controller.Registerer := unit;
     controller.Loader := Loader;
     controller.Scheduler := list controller.ComponentNode;
     controller.NewLoader := fun _ => mkLoader [] [];
     controller.Apply := fun _ blocks =>
       (mkLoader (map node blocks) (flat_map edgesOf blocks),
        flat_map diags blocks, []);
     controller.EvaluateDependencies := fun ld cn => (ld, dependants ld cn);
     controller.Components := nodes;
     controller.OriginalGraph_Edges := edges;
     controller.NewScheduler := [];
     controller.Synchronize := fun _ runnables => (runnables, None);
     controller.Close := fun _ => ([], None) |}.

Definition healthy : component.Health :=
  component.mkHealth component.HealthTypeHealthy "started component" 7.

Definition nodeOf (id name label args exports : string) : controller.ComponentNode :=
  controller.mkComponentNode id label name healthy args exports.

(** [prometheus.scrape.app] reads the targets of [discovery.kubernetes.pods]. *)
Definition pods : controller.ComponentNode :=
  nodeOf "discovery.kubernetes.pods" "discovery.kubernetes" "pods"
         "role=pod" "targets=[10.0.0.1]".

Definition scrape : controller.ComponentNode :=
  nodeOf "prometheus.scrape.app" "prometheus.scrape" "app"
         "targets=discovery.kubernetes.pods.targets" "".

Definition anError : diag.Diagnostic :=
  diag.mkDiagnostic diag.SeverityLevelError "missing required attribute".

Definition aWarning : diag.Diagnostic :=
  diag.mkDiagnostic diag.SeverityLevelWarn "attribute is deprecated".

Definition options : @Options Logging Controller :=
  @mkOptions Logging Controller None "data-agent/" tt "127.0.0.1:12345".

Definition logfmt : logging.Options := logging.mkOptions "info" "logfmt".

Definition goodFile : @File Logging Controller :=
  @mkFile Logging Controller logfmt
    [mkBlock pods [] []; mkBlock scrape ["discovery.kubernetes.pods"] []].

Definition badFile : @File Logging Controller :=
  @mkFile Logging Controller logfmt
    [mkBlock pods [] []; mkBlock scrape ["discovery.kubernetes.pods"] [anError]].

Definition warnFile : @File Logging Controller :=
  @mkFile Logging Controller logfmt
    [mkBlock pods [] [aWarning]; mkBlock scrape ["discovery.kubernetes.pods"] []].

Definition badLoggingFile : @File Logging Controller :=
  @mkFile Logging Controller (logging.mkOptions "info" "xml")
    [mkBlock pods [] []; mkBlock scrape ["discovery.kubernetes.pods"] []].

(** The controller right after [New options]. *)
Definition started : @Sys Logging Controller :=
  match New options with
  | Ok s => s
  | Panic _ => mkSys (@mkFlow Logging Controller
                        None options controller.NewQueue [] (mkLoader [] [])
                        (controller.mkComponentGlobals (io.Discard, logfmt) ""
                           (fun _ q => q) tt "")
                        false (Chan.make 1) (Chan.make 1) false)
                     LoopExited CloseNotCalled true []
  end.

(** The controller after the schedule [ls], started from [started]. *)
Definition after (ls : list (@label Logging Controller)) : @Sys Logging Controller :=
  match execs started ls with
  | Some s => s
  | None => started
  end.

(** A first load that is accepted, and the loop scheduling its components. *)
Definition loaded : @Sys Logging Controller := after [CallLoadFile goodFile].

Definition running : @Sys Logging Controller :=
  after [CallLoadFile goodFile; LoopLoadFinished].

(** The pods component publishes new targets; the loop is notified and
    enters its inner loop. *)
Definition notified : @Sys Logging Controller :=
  after [CallLoadFile goodFile; LoopLoadFinished; WorkerExportsChange pods].

Definition draining : @Sys Logging Controller :=
  after [CallLoadFile goodFile; LoopLoadFinished; WorkerExportsChange pods;
         LoopChan].

Definition drained : @Flow Logging Controller :=
  match drain 3 (flow draining) with
  | Some (Ok (_, c)) => c
  | _ => flow draining
  end.

(** Close was called and the loop has returned. *)
Definition stopping : @Sys Logging Controller :=
  after [CallLoadFile goodFile; LoopLoadFinished; CallClose; LoopDone].

(** The same configuration with other arguments and exports for the pods. *)
Definition otherPods : controller.ComponentNode :=
  nodeOf "discovery.kubernetes.pods" "discovery.kubernetes" "pods"
         "role=node" "targets=[10.0.0.2]".

Definition otherFile : @File Logging Controller :=
  @mkFile Logging Controller logfmt
    [mkBlock otherPods [] []; mkBlock scrape ["discovery.kubernetes.pods"] []].

Definition otherLoaded : @Sys Logging Controller := after [CallLoadFile otherFile].

End demo.


(** ** Package main: the run command

    The part of [flowRun.Run] that builds the controller and performs the
    first load, the [reload] closure, the two HTTP handlers that use it, and
    [getEnabledComponentsFunc]. *)

(** A byte slice read from a file. *)
Definition bytes : Type := string.

(** What the command takes from outside the sources at hand: the parser
    [flow.ReadFile], the quoting of [%q], the text of a list of
    diagnostics, and the default Prometheus registerer. *)
Class Host {L : logging.Package} {C : controller.Package} : Type := {
  ReadFile : string -> bytes -> @File L C + error;
  Quote : string -> string;
  Diagnostics_Error : diag.Diagnostics -> string;
  DefaultRegisterer : controller.Registerer
}.

Section Command.

Context {L : logging.Package} {C : controller.Package} {H : Host}.

(** The file system: [os.ReadFile]. *)
Definition FileSystem : Type := string -> bytes + error.

(** [err.Error()] *)
Fixpoint Error_string (err : error) : string :=
  match err with
  | errorString msg => msg
  | wrapError msg err => String.append msg (Error_string err)
  | diagError ds => Diagnostics_Error ds
  end.

(** [errors.As(err, &diags)] for [diags] a [diag.Diagnostics]: the first
    error of that type in the chain of wrapped errors. *)
Fixpoint errors_As_Diagnostics (err : error) : option diag.Diagnostics :=
  match err with
  | errorString _ => None
  | wrapError _ err => errors_As_Diagnostics err
  | diagError ds => Some ds
  end.

Definition loadFlowFile (fs : FileSystem) (filename : string) : File + error :=
  match fs filename with
  | inr err => inr err
  | inl bb => ReadFile filename bb
  end.

(** The [reload] closure of [Run], over the controller [f]. *)
Definition reload (fs : FileSystem) (configFile : string) (f : Flow)
    : result (Flow * option error) :=
  match loadFlowFile fs configFile with
  | inr err =>
    Ok (f, Some (wrapError
                   (String.append "reading config file "
                      (String.append (Quote configFile) ": ")) err))
  | inl flowCfg =>
    match LoadFile f flowCfg with
    | Panic v => Panic v
    | Ok (f, Some err) =>
      Ok (f, Some (wrapError "error during the initial gragent load: " err))
    | Ok (f, None) => Ok (f, None)
    end
  end.

(** The flags of the run command. *)
Record flowRun : Type := mkFlowRun {
  httpListenAddr : string;
  storagePath : string;
  uiPrefix : string;
  disableReporting : bool
}.

(** The controller behind the HTTP server, with the [ready] flag. *)
Record Server : Type := mkServer {
  ctl : Flow;
  ready : bool
}.

(** How [Run] gets on: it returns an error before the block that sets up
    the HTTP server, or it enters that block, where [ready] starts true. *)
Inductive RunStart : Type :=
| RunReturned (err : error)
| RunServing (srv : Server).

(** [Run], up to the start of the HTTP server.  The event loop started by
    [flow.New] has nothing to receive before the first load, so the
    controller at the call of [reload] is the one [newFlow] made. *)
Definition Run_start (fr : flowRun) (fs : FileSystem) (configFile : string)
    : result RunStart :=
  if String.eqb configFile "" then
    Ok (RunReturned (errorString "file argument not provided"))
  else
    match logging.New io.Stderr logging.DefaultOptions with
    | inr err => Ok (RunReturned (wrapError "building logger: " err))
    | inl l =>
      match newFlow (mkOptions (Some l) (storagePath fr) DefaultRegisterer
                               (httpListenAddr fr)) with
      | Panic v => Panic v
      | Ok f =>
        match reload fs configFile f with
        | Panic v => Panic v
        | Ok (f, Some err) =>
          match errors_As_Diagnostics err with
          | Some diags =>
            Ok (RunReturned
                  (errorString "could not perform the initial load successfully"))
          | None => Ok (RunReturned err)
          end
        | Ok (f, None) => Ok (RunServing (mkServer f true))
        end
      end
    end.

(** An HTTP response: status code and body. *)
Record Response : Type := mkResponse {
  StatusCode : nat;
  Body : string
}.

Definition newline : string := String (Ascii.ascii_of_nat 10) EmptyString.

(** The handler of [/-/ready]. *)
Definition readyHandler (srv : Server) : Response :=
  if ready srv then
    mkResponse 200 (String.append "Agent is Ready." newline)
  else
    mkResponse 503 (String.append "Config failed to load." newline).

(** The handler of [/-/reload]. *)
Definition reloadHandler (fs : FileSystem) (configFile : string) (srv : Server)
    : result (Server * Response) :=
  match reload fs configFile (ctl srv) with
  | Panic v => Panic v
  | Ok (f, err) =>
    let srv := mkServer f (match err with None => true | Some _ => false end) in
    match err with
    | Some err =>
      Ok (srv, mkResponse 400 (String.append (Error_string err) newline))
    | None =>
      Ok (srv, mkResponse 200 (String.append "config reloaded" newline))
    end
  end.

(** The loop of [getEnabledComponentsFunc] that fills the set of names. *)
Definition addName (components : list string) (info : ComponentInfo) : list string :=
  if existsb (String.eqb (Name info)) components then components
  else components ++ [Name info].

(** The keys of the set built by [getEnabledComponentsFunc].  Go leaves the
    order of [maps.Keys] open; here the keys come in the order in which
    they were first added. *)
Definition enabledComponents (f : Flow) : list string :=
  let infos := ComponentInfos f in
  fold_left addName infos [].

(** The function returned by [getEnabledComponentsFunc], applied. *)
Definition getEnabledComponentsFunc (f : Flow) : list (string * list string) :=
  [("enabled-components", enabledComponents f)].

End Command.

(** A small host for the run command: four files on disk, a parser that
    knows their contents, and plain quoting. *)
Module demoHost.

Definition syntaxError : diag.Diagnostic :=
  diag.mkDiagnostic diag.SeverityLevelError "expected block label".

Definition parse (filename : string) (bb : bytes)
    : @File demo.Logging demo.Controller + error :=
  if String.eqb bb "good" then inl demo.goodFile
  else if String.eqb bb "bad" then inl demo.badFile
  else if String.eqb bb "warn" then inl demo.warnFile
  else if String.eqb bb "badlogging" then inl demo.badLoggingFile
  else inr (diagError [syntaxError]).

Definition dquote : string := String (Ascii.ascii_of_nat 34) EmptyString.

Definition Host : @Host demo.Logging demo.Controller :=
  {| ReadFile := parse;
     Quote := fun s => String.append dquote (String.append s dquote);
     Diagnostics_Error := fun ds =>
       match ds with
       | [] => "no errors"
       | d :: _ => diag.Message d
       end;
     DefaultRegisterer := tt |}.

Definition notExist : error := errorString "no such file or directory".

Definition disk : FileSystem :=
  fun filename =>
    if String.eqb filename "agent.river" then inl "good"
    else if String.eqb filename "bad.river" then inl "bad"
    else if String.eqb filename "warn.river" then inl "warn"
    else if String.eqb filename "badlogging.river" then inl "badlogging"
    else inr notExist.

Definition flags : flowRun := mkFlowRun "127.0.0.1:12345" "data-agent/" "/" false.

(** The server behind [agent.river], once the loop has scheduled the
    components. *)
Definition serving : @Server demo.Logging demo.Controller :=
  @mkServer demo.Logging demo.Controller (flow demo.running) true.

(** The controller [Run] makes for these flags, before the first load. *)
Definition fresh : @Flow demo.Logging demo.Controller :=
  match @newFlow demo.Logging demo.Controller
          (@mkOptions demo.Logging demo.Controller
             (Some (io.Stderr, demo.logfmt)) "data-agent/" tt "127.0.0.1:12345") with
  | Ok f => f
  | Panic _ => flow demo.started
  end.

(** The server [Run] starts for [agent.river]. *)
Definition served : @Server demo.Logging demo.Controller :=
  match @Run_start demo.Logging demo.Controller Host flags disk "agent.river" with
  | Ok (RunServing srv) => srv
  | _ => serving
  end.

(** The server and the answer after a reload of [bad.river]. *)
Definition badReload
    : @Server demo.Logging demo.Controller * Response :=
  match @reloadHandler demo.Logging demo.Controller Host disk "bad.river" serving with
  | Ok p => p
  | Panic _ => (serving, mkResponse 0 "")
  end.

End demoHost.

(** ** pkg/config: versioned integrations *)

From Stdlib Require Import ZArith.

Module config.

(** [integrationsVersion] is an int; the two constants are 0 and 1. *)
Definition integrationsVersion : Type := Z.
Definition integrationsVersion1 : integrationsVersion := 0%Z.
Definition integrationsVersion2 : integrationsVersion := 1%Z.

(** [util.RawYAML]: the bytes of a YAML document. *)
Definition RawYAML : Type := bytes.

(** What the file takes from the two integrations packages and from yaml:
    the configuration types with their defaults, strict unmarshalling into
    a configuration (which it changes, with or without an error), the
    zero tests of [reflect], the constructors of the two subsystems, and
    the decimal text of a version. *)
Class Package : Type := {
  ManagerConfig : Type;
  SubsystemRest : Type;
  Config : Type;
  Manager : Type;
  Subsystem : Type;
  DefaultManagerConfig : ManagerConfig;
  DefaultSubsystemRest : SubsystemRest;
  DefaultSubsystemConfigs : list Config;
  ManagerConfig_IsZero : ManagerConfig -> bool;
  SubsystemOptions_IsZero : list Config -> SubsystemRest -> bool;
  UnmarshalStrictV1 : RawYAML -> ManagerConfig -> ManagerConfig * option error;
  UnmarshalStrictV2 :
    RawYAML -> list Config * SubsystemRest -> list Config * SubsystemRest * option error;
  NewManager : ManagerConfig -> Manager + error;
  NewSubsystem : list Config * SubsystemRest -> Subsystem + error;
  FormatInt : Z -> string
}.

Section Versioned.

Context {P : Package}.

(** [v2.SubsystemOptions]: the field [Configs] and the other fields. *)
Record SubsystemOptions : Type := mkSubsystemOptions {
  Configs : list Config;
  rest : SubsystemRest
}.

Definition DefaultSubsystemOptions : SubsystemOptions :=
  mkSubsystemOptions DefaultSubsystemConfigs DefaultSubsystemRest.

(** VersionedIntegrations abstracts the subsystem configs for integrations
    v1 and v2.  The two configs are pointers: [None] is nil. *)
Record VersionedIntegrations : Type := mkVersionedIntegrations {
  version : integrationsVersion;
  raw : RawYAML;
  configV1 : option ManagerConfig;
  configV2 : option SubsystemOptions;
  ExtraIntegrations : list Config
}.

(** [UnmarshalYAML]: full unmarshaling is deferred until setVersion is
    invoked.  [unmarshal] decodes into the raw bytes. *)
Definition UnmarshalYAML (c : VersionedIntegrations)
    (unmarshal : RawYAML -> RawYAML * option error)
    : VersionedIntegrations * option error :=
  let (raw', err) := unmarshal (raw c) in
  (mkVersionedIntegrations (version c) raw' None None (ExtraIntegrations c), err).

(** What [MarshalYAML] hands to the encoder. *)
Inductive Marshalled : Type :=
| MarshalV1 (cfg : ManagerConfig)
| MarshalV2 (cfg : SubsystemOptions)
| MarshalRaw (raw : RawYAML).

Definition MarshalYAML (c : VersionedIntegrations) : Marshalled :=
  match configV1 c, configV2 c with
  | Some cfg, _ => MarshalV1 cfg
  | None, Some cfg => MarshalV2 cfg
  | None, None => MarshalRaw (raw c)
  end.

Definition IsZero (c : VersionedIntegrations) : bool :=
  match configV1 c, configV2 c with
  | Some cfg, _ => ManagerConfig_IsZero cfg
  | None, Some cfg => SubsystemOptions_IsZero (Configs cfg) (rest cfg)
  | None, None => String.length (raw c) =? 0
  end.

(** [setVersion] completes the deferred unmarshal and unmarshals the raw
    YAML into the subsystem config for version v. *)
Definition setVersion (c : VersionedIntegrations) (v : integrationsVersion)
    : result (VersionedIntegrations * option error) :=
  if Z.eqb v integrationsVersion1 then
    let (cfg, err) := UnmarshalStrictV1 (raw c) DefaultManagerConfig in
    Ok (mkVersionedIntegrations v (raw c) (Some cfg) (configV2 c)
                                (ExtraIntegrations c), err)
  else if Z.eqb v integrationsVersion2 then
    let '(configs, others, err) :=
      UnmarshalStrictV2 (raw c) (Configs DefaultSubsystemOptions,
                                 rest DefaultSubsystemOptions) in
    match err with
    | Some err =>
      Ok (mkVersionedIntegrations v (raw c) None
            (Some (mkSubsystemOptions configs others)) (ExtraIntegrations c),
          Some err)
    | None =>
      Ok (mkVersionedIntegrations v (raw c) None
            (Some (mkSubsystemOptions (configs ++ ExtraIntegrations c) others))
            (ExtraIntegrations c),
          None)
    end
  else
    Panic (errorString (String.append "unknown integrations version " (FormatInt v))).

(** The subsystem [NewIntegrations] builds. *)
Inductive Integrations : Type :=
| v1Integrations (m : Manager)
| v2Integrations (s : Subsystem).

(** [NewIntegrations] creates a new subsystem: it reads through the config
    pointer that the version selects. *)
Definition NewIntegrations (cfg : VersionedIntegrations)
    : result (Integrations + error) :=
  if negb (Z.eqb (version cfg) integrationsVersion2) then
    match configV1 cfg with
    | None => Panic nilPointerDereference
    | Some c =>
      match NewManager c with
      | inr err => Ok (inr err)
      | inl instance => Ok (inl (v1Integrations instance))
      end
    end
  else
    match configV2 cfg with
    | None => Panic nilPointerDereference
    | Some c =>
      match NewSubsystem (Configs c, rest c) with
      | inr err => Ok (inr err)
      | inl instance => Ok (inl (v2Integrations instance))
      end
    end.

End Versioned.

End config.

(** A small instance of the integrations packages: a configuration is the
    list of integration names in the document, one per line. *)
Module demoConfig.

Fixpoint lines (acc : string) (s : string) : list string :=
  match s with
  | EmptyString => if String.eqb acc "" then [] else [acc]
  | String c s' =>
    if Ascii.eqb c (Ascii.ascii_of_nat 10) then
      (if String.eqb acc "" then lines "" s' else acc :: lines "" s')
    else lines (String.append acc (String c EmptyString)) s'
  end.

Definition unknownField : error := errorString "yaml: unknown field".

Definition Package : config.Package :=
  {| config.ManagerConfig := list string;
     config.SubsystemRest := unit;
     config.Config := string;
     config.Manager := list string;
     config.Subsystem := list string;
     config.DefaultManagerConfig := [];
     config.DefaultSubsystemRest := tt;
     config.DefaultSubsystemConfigs := [];
     config.ManagerConfig_IsZero := fun cfg =>
       match cfg with [] => true | _ => false end;
     config.SubsystemOptions_IsZero := fun cfgs _ =>
       match cfgs with [] => true | _ => false end;
     config.UnmarshalStrictV1 := fun raw cfg =>
       if existsb (String.eqb "???") (lines "" raw)
       then (cfg, Some unknownField) else (lines "" raw, None);
     config.UnmarshalStrictV2 := fun raw cfg =>
       if existsb (String.eqb "???") (lines "" raw)
       then (cfg, Some unknownField) else (lines "" raw, tt, None);
     config.NewManager := fun cfg => inl cfg;
     config.NewSubsystem := fun cfg => inl (fst cfg);
     config.FormatInt := fun _ => "?" |}.

Definition document : config.RawYAML :=
  String.append "node_exporter"
    (String.append (String (Ascii.ascii_of_nat 10) EmptyString) "agent").

(** A value decoded from [document], before any setVersion, with one
    extra integration. *)
Definition decoded : @config.VersionedIntegrations Package :=
  @config.mkVersionedIntegrations Package config.integrationsVersion1
     document None None ["extra"].

(** [decoded] after [setVersion] to version 2. *)
Definition versioned2 : @config.VersionedIntegrations Package :=
  match @config.setVersion Package decoded config.integrationsVersion2 with
  | Ok (c, _) => c
  | Panic _ => decoded
  end.

End demoConfig.

(** * Properties *)

(** ** Channels *)

Lemma try_send_cap (ch : Chan.t) : Chan.cap (Chan.try_send ch) = Chan.cap ch.
Proof.
  unfold Chan.try_send, Chan.send.
  destruct (Chan.len ch <? Chan.cap ch); reflexivity.
Qed.

Lemma try_send_closed (ch : Chan.t) :
  Chan.closed (Chan.try_send ch) = Chan.closed ch.
Proof.
  unfold Chan.try_send, Chan.send.
  destruct (Chan.len ch <? Chan.cap ch); reflexivity.
Qed.

Lemma try_send_len (ch : Chan.t) :
  Chan.cap ch = 1 -> Chan.len ch <= 1 -> Chan.len (Chan.try_send ch) = 1.
Proof.
  intros Hcap Hlen. unfold Chan.try_send, Chan.send. rewrite Hcap.
  destruct (Nat.ltb_spec (Chan.len ch) 1); simpl; lia.
Qed.

Lemma try_send_blocked (ch : Chan.t) :
  Chan.send ch = None -> Chan.try_send ch = ch.
Proof. unfold Chan.try_send. intros ->. reflexivity. Qed.

Lemma send_blocked_full (ch : Chan.t) :
  Chan.send ch = None <-> Chan.cap ch <= Chan.len ch.
Proof.
  unfold Chan.send. destruct (Chan.len ch <? Chan.cap ch) eqn:E.
  - apply Nat.ltb_lt in E. split; [discriminate | lia].
  - apply Nat.ltb_ge in E. split; [intros _; exact E | reflexivity].
Qed.

Lemma recv_frame (ch ch' : Chan.t) :
  Chan.recv ch = Some ch' ->
  Chan.cap ch' = Chan.cap ch /\ Chan.len ch' <= Chan.len ch /\
  Chan.closed ch' = Chan.closed ch.
Proof.
  unfold Chan.recv. destruct (Chan.len ch) eqn:E.
  - destruct (Chan.closed ch) eqn:E'; [|discriminate].
    intros [= <-]. rewrite E. auto.
  - intros [= <-]. simpl. repeat split; lia.
Qed.

Lemma recv_empty_closed (ch ch' : Chan.t) :
  Chan.len ch = 0 -> Chan.recv ch = Some ch' -> Chan.closed ch = true /\ ch' = ch.
Proof.
  unfold Chan.recv. intros ->. destruct (Chan.closed ch) eqn:E; [|discriminate].
  intros [= <-]. auto.
Qed.

Lemma pending_len (ch : Chan.t) : Chan.pending ch = true <-> 0 < Chan.len ch.
Proof. unfold Chan.pending. apply Nat.ltb_lt. Qed.

(** ** The queue *)

Lemma Enqueue_keeps (q : controller.Queue) (c n : controller.ComponentNode) :
  In n (controller.queued q) -> In n (controller.queued (controller.Enqueue q c)).
Proof.
  unfold controller.Enqueue.
  destruct (existsb (controller.sameNode c) (controller.queued q)); simpl; auto.
  intros H. apply in_or_app. auto.
Qed.

Lemma Enqueue_present (q : controller.Queue) (c : controller.ComponentNode) :
  existsb (controller.sameNode c) (controller.queued (controller.Enqueue q c)) = true.
Proof.
  unfold controller.Enqueue.
  destruct (existsb (controller.sameNode c) (controller.queued q)) eqn:E; simpl.
  - exact E.
  - rewrite existsb_app. simpl. unfold controller.sameNode at 2.
    rewrite String.eqb_refl. rewrite orb_true_r. reflexivity.
Qed.

(** ** Histories *)

Lemma closeAfterExit_nil : closeAfterExit [].
Proof. intros [|? ?] t2 H; discriminate H. Qed.

Lemma snoc_split (t t1 t2 : list Event) (a b : Event) :
  t ++ [a] = t1 ++ b :: t2 ->
  (t2 = [] /\ t = t1 /\ a = b) \/
  (exists t2', t2 = t2' ++ [a] /\ t = t1 ++ b :: t2').
Proof.
  intros H. destruct (exists_last (l := b :: t2)) as (t2' & a' & E); [discriminate|].
  rewrite E, app_assoc in H. apply app_inj_tail in H as [Ht <-].
  destruct t2' as [|b' t2'']; simpl in E.
  - injection E as <- <-. left. rewrite app_nil_r in Ht. auto.
  - injection E as <- ->. right. exists t2''. auto.
Qed.

Lemma closeAfterExit_snoc_other (t : list Event) (ev : Event) :
  closeAfterExit t -> ev <> EvSchedulerClose -> closeAfterExit (t ++ [ev]).
Proof.
  intros Ht Hev t1 t2 H.
  apply snoc_split in H as [(_ & _ & ->)|(t2' & _ & ->)].
  - congruence.
  - exact (Ht t1 t2' eq_refl).
Qed.

Lemma closeAfterExit_snoc_close (t : list Event) :
  closeAfterExit t -> In EvLoopExited t ->
  closeAfterExit (t ++ [EvSchedulerClose]).
Proof.
  intros Ht Hin t1 t2 H.
  apply snoc_split in H as [(_ & -> & _)|(t2' & _ & ->)].
  - exact Hin.
  - exact (Ht t1 t2' eq_refl).
Qed.

Section Properties.

Context {L : logging.Package} {C : controller.Package}.

(** ** LoadFile, path by path *)

Lemma LoadFile_nil_logger (c : Flow) (file : File) :
  log c = None -> LoadFile c file = Panic nilPointerDereference.
Proof. unfold LoadFile. intros ->. reflexivity. Qed.

Lemma LoadFile_logger_error (c : Flow) (file : File) l l' err :
  log c = Some l ->
  logging.Update l (Logging file) = (l', Some err) ->
  LoadFile c file =
    Ok (withLog c (Some l'), Some (wrapError "error updating logger: " err)).
Proof. unfold LoadFile. intros -> ->. reflexivity. Qed.

Lemma LoadFile_rejects (c : Flow) (file : File) l l' ld diags changed :
  log c = Some l ->
  logging.Update l (Logging file) = (l', None) ->
  controller.Apply (loader c) (Components file) = (ld, diags, changed) ->
  loadedOnce c = false ->
  diag.HasErrors diags = true ->
  LoadFile c file =
    Ok (exportsChanged (withLoader (withLog c (Some l')) ld) changed,
        Some (diagError diags)).
Proof.
  unfold LoadFile. intros -> -> HA Honce Herr. simpl. rewrite HA. simpl.
  rewrite Honce, Herr. reflexivity.
Qed.

Lemma LoadFile_accepts (c : Flow) (file : File) l l' ld diags changed :
  log c = Some l ->
  logging.Update l (Logging file) = (l', None) ->
  controller.Apply (loader c) (Components file) = (ld, diags, changed) ->
  negb (loadedOnce c) && diag.HasErrors diags = false ->
  LoadFile c file =
    Ok (withLoadFinished
          (withLoadedOnce
             (exportsChanged (withLoader (withLog c (Some l')) ld) changed) true)
          (Chan.try_send (loadFinished c)),
        ErrorOrNil diags).
Proof.
  unfold LoadFile. intros -> -> HA Hcond. simpl. rewrite HA. simpl.
  rewrite Hcond. reflexivity.
Qed.

(** LoadFile returns whenever the logger is there. *)
Lemma LoadFile_returns (c : Flow) (file : File) :
  log c <> None -> exists c' r, LoadFile c file = Ok (c', r).
Proof.
  intros Hlog. destruct (log c) as [l|] eqn:El; [|congruence].
  destruct (logging.Update l (Logging file)) as [l' [err|]] eqn:EU.
  - eexists _, _. eapply LoadFile_logger_error; eauto.
  - destruct (controller.Apply (loader c) (Components file)) as [[ld diags] changed] eqn:EA.
    destruct (negb (loadedOnce c) && diag.HasErrors diags) eqn:Eg.
    + apply andb_true_iff in Eg as [Ho He]. apply negb_true_iff in Ho.
      eexists _, _. eapply LoadFile_rejects; eauto.
    + eexists _, _. eapply LoadFile_accepts; eauto.
Qed.

(** What LoadFile leaves alone, and the two things it can do to the flag
    and the load-finished channel. *)
Lemma LoadFile_frame (c c' : Flow) (file : File) (r : option error) :
  LoadFile c file = Ok (c', r) ->
  log c' <> None /\ opts c' = opts c /\ sched c' = sched c /\
  globals c' = globals c /\ ctxDone c' = ctxDone c /\ exited c' = exited c /\
  ((loadFinished c' = loadFinished c /\ loadedOnce c' = loadedOnce c) \/
   (loadFinished c' = Chan.try_send (loadFinished c) /\ loadedOnce c' = true)).
Proof.
  intros H. destruct (log c) as [l|] eqn:El.
  2:{ rewrite LoadFile_nil_logger in H by assumption. discriminate. }
  destruct (logging.Update l (Logging file)) as [l' [err|]] eqn:EU.
  - erewrite LoadFile_logger_error in H by eauto.
    injection H as <- <-. simpl. repeat split; auto; discriminate.
  - destruct (controller.Apply (loader c) (Components file)) as [[ld diags] changed] eqn:EA.
    destruct (negb (loadedOnce c) && diag.HasErrors diags) eqn:Eg.
    + apply andb_true_iff in Eg as [Ho He]. apply negb_true_iff in Ho.
      erewrite LoadFile_rejects in H by eauto.
      injection H as <- <-. simpl. repeat split; auto; discriminate.
    + erewrite LoadFile_accepts in H by eauto.
      injection H as <- <-. simpl. repeat split; auto; discriminate.
Qed.

Lemma LoadFile_wf (c c' : Flow) (file : File) (r : option error) :
  wf c -> LoadFile c file = Ok (c', r) -> wf c'.
Proof.
  intros (Hcap & Hlen & Hcl & Hex) H.
  apply LoadFile_frame in H as (_ & _ & _ & _ & _ & Hexit & [[Hlf _]|[Hlf _]]);
    unfold wf; rewrite Hexit, Hlf.
  - auto.
  - rewrite try_send_cap, try_send_closed, try_send_len by assumption. auto.
Qed.

(** ** The invariant of the running controller *)

Lemma newFlow_shape (o : Options) (c : Flow) :
  newFlow o = Ok c ->
  exists l,
    log c = Some l /\ opts c = o /\
    updateQueue c = controller.NewQueue /\
    sched c = controller.NewScheduler /\
    controller.Logger_of (globals c) = l /\
    callbackEnqueues c /\
    ctxDone c = false /\ exited c = Chan.make 1 /\
    loadFinished c = Chan.make 1 /\ loadedOnce c = false /\
    (match Logger o with
     | Some l' => l = l'
     | None => logging.New io.Discard logging.DefaultOptions = inl l
     end).
Proof.
  unfold newFlow. intros H.
  destruct (Logger o) as [l'|] eqn:Elog.
  - injection H as <-. exists l'. simpl. repeat split; auto.
  - destruct (logging.New io.Discard logging.DefaultOptions) as [l|err] eqn:En;
      [|discriminate].
    injection H as <-. exists l. simpl. repeat split; auto.
Qed.

Lemma New_invariant (o : Options) (s : Sys) : New o = Ok s -> invariant s.
Proof.
  unfold New. destruct (newFlow o) as [c|v] eqn:E; [|discriminate].
  intros [= <-].
  apply newFlow_shape in E
    as (l & Hl & _ & _ & _ & _ & Hcb & _ & Hex & Hlf & Honce & _).
  constructor; simpl.
  - reflexivity.
  - congruence.
  - unfold wf. rewrite Hex, Hlf. simpl. auto.
  - exact Hcb.
  - rewrite Hex. simpl. split; discriminate.
  - intros [].
  - discriminate.
  - discriminate.
  - apply closeAfterExit_nil.
  - intros _. rewrite Hlf. simpl. auto.
Qed.

Ltac inv_some :=
  match goal with
  | H : Some _ = Some _ |- _ => injection H as <-
  | H : None = Some _ |- _ => discriminate H
  end.

Lemma exec_running (s s' : Sys) (l : label) :
  exec s l = Some s' -> crashed s = false.
Proof. unfold exec. destruct (crashed s); [discriminate | reflexivity]. Qed.

Lemma exec_CallLoadFile (s s' : Sys) (file : File) :
  invariant s ->
  exec s (CallLoadFile file) = Some s' ->
  exists r, LoadFile (flow s) file = Ok (flow s', r) /\
            loop s' = loop s /\ closer s' = closer s /\
            crashed s' = false /\ trace s' = trace s.
Proof.
  intros I H. unfold exec in H. rewrite (inv_running s I) in H.
  destruct (LoadFile_returns (flow s) file (inv_log s I)) as (c' & r & E).
  rewrite E in H. inv_some. exists r. simpl. auto.
Qed.

(** Appending an event that is no Synchronize keeps the first-load part of
    the invariant. *)
Lemma first_load_snoc (P : Prop) (n : nat) (t : list Event) (ev : Event) :
  (forall rs, ev <> EvSynchronize rs) ->
  (P -> n = 0 /\ forall rs, ~ In (EvSynchronize rs) t) ->
  P -> n = 0 /\ forall rs, ~ In (EvSynchronize rs) (t ++ [ev]).
Proof.
  intros Hev H HP. destruct (H HP) as [H0 Hn]. split; [exact H0|].
  intros rs Hin. apply in_app_or in Hin as [Hin|[Hin|[]]].
  - exact (Hn rs Hin).
  - exact (Hev rs Hin).
Qed.

(** The loop has not returned and does not return in this step: the parts
    of the invariant that speak of its exit carry over. *)
Ltac loop_alive :=
  match goal with
  | I : _ <-> loop ?s = LoopExited |- _ <-> _ = LoopExited =>
    split; [let Hc := fresh in intros Hc; apply I in Hc; congruence | discriminate]
  | I : In EvSchedulerClose (trace ?s) -> loop ?s = LoopExited
    |- In EvSchedulerClose (_ ++ _) -> _ =>
    let Hin := fresh in
    intros Hin; apply in_app_or in Hin as [Hin|[Hin|[]]];
    [apply I in Hin; congruence | discriminate]
  | I : In EvSchedulerClose (trace ?s) -> loop ?s = LoopExited
    |- In EvSchedulerClose _ -> _ =>
    let Hin := fresh in intros Hin; apply I in Hin; congruence
  | I : forall err, closer ?s = CloseReturned err -> _ |- forall err, _ =>
    let Hc := fresh in intros ? Hc; apply I in Hc; congruence
  | |- _ -> _ = 0 /\ _ =>
    apply first_load_snoc; [discriminate | assumption]
  | |- _ = LoopExited -> In EvLoopExited _ =>
    let Hl := fresh in
    intros Hl;
    first [discriminate Hl | congruence
          | apply in_or_app; first [left; auto; fail | right; left; reflexivity]]
  | |- closeAfterExit (_ ++ [_]) =>
    apply closeAfterExit_snoc_other; [assumption | discriminate]
  end.

Lemma exec_invariant (s s' : Sys) (l : label) :
  invariant s -> exec s l = Some s' -> invariant s'.
Proof.
  intros I H. destruct l.
  - (* LoadFile *)
    destruct (exec_CallLoadFile s s' file I H) as (r & E & Hl & Hc & Hr & Ht).
    pose proof (LoadFile_wf _ _ _ _ (inv_wf s I) E) as Hwf.
    apply LoadFile_frame in E as (Hlog & _ & _ & Hg & _ & Hex & Hload).
    constructor; rewrite ?Hl, ?Hc, ?Ht, ?Hex; auto.
    + unfold callbackEnqueues. rewrite Hg. exact (inv_callback s I).
    + exact (inv_exited s I).
    + exact (inv_sched_close s I).
    + exact (inv_closer s I).
    + exact (inv_loop_exit s I).
    + exact (inv_close_order s I).
    + intros Honce. destruct Hload as [[Hlf Ho]|[_ Ho]]; [|congruence].
      rewrite Hlf. apply (inv_first_load s I). congruence.
  - (* a worker changes its exports *)
    unfold exec in H. rewrite (inv_running s I) in H. inv_some.
    destruct I. constructor; simpl; auto.
  - (* Close: cancel *)
    unfold exec in H. rewrite (inv_running s I) in H.
    destruct (closer s) eqn:Ec; try discriminate. inv_some.
    destruct I. constructor; simpl; auto. discriminate.
  - (* Close: after the receive from exited *)
    unfold exec, Close_return in H. rewrite (inv_running s I) in H.
    destruct (closer s) eqn:Ec; try discriminate.
    destruct (Chan.recv (exited (flow s))) as [ch|] eqn:Er; [|discriminate].
    destruct (controller.Close (sched (flow s))) as [sc err]. inv_some.
    destruct (inv_wf s I) as (Hcap & Hlen & Hcl & Hex0).
    destruct (recv_empty_closed _ _ Hex0 Er) as [Hclosed ->].
    pose proof (proj1 (inv_exited s I) Hclosed) as Hloop.
    destruct I. constructor; simpl; auto; try loop_alive.
    apply closeAfterExit_snoc_close; auto.
  - (* the loop: context done *)
    unfold exec, run_Done in H. rewrite (inv_running s I) in H.
    destruct (loop s) eqn:El; try discriminate.
    destruct (ctxDone (flow s)); [|discriminate].
    destruct (log (flow s)) eqn:Elog; [|exfalso; exact (inv_log s I Elog)].
    inv_some. destruct (inv_wf s I) as (Hcap & Hlen & Hcl & Hex0).
    destruct I. constructor; simpl; auto; try loop_alive; try congruence.
    split; auto.
  - (* the loop: queue notification *)
    unfold exec, run_Chan in H. rewrite (inv_running s I) in H.
    destruct (loop s) eqn:El; try discriminate.
    destruct (Chan.recv (controller.Chan (updateQueue (flow s)))); [|discriminate].
    inv_some. destruct I. constructor; simpl; auto; loop_alive.
  - (* the loop: one turn of the drain *)
    unfold exec, run_TryDequeue in H. rewrite (inv_running s I) in H.
    destruct (loop s) eqn:El; try discriminate.
    destruct (controller.TryDequeue (updateQueue (flow s))) as [[updated|] q].
    + simpl in H.
      destruct (log (flow s)) eqn:Elog; [|exfalso; exact (inv_log s I Elog)].
      destruct (controller.EvaluateDependencies (loader (flow s)) updated)
        as [ld changed].
      inv_some. destruct I.
      constructor; simpl; auto; try loop_alive; congruence.
    + simpl in H. inv_some. destruct I. constructor; simpl; auto; loop_alive.
  - (* the loop: load finished *)
    unfold exec, run_loadFinished in H. rewrite (inv_running s I) in H.
    destruct (loop s) eqn:El; try discriminate.
    destruct (Chan.recv (loadFinished (flow s))) as [ch|] eqn:Er; [|discriminate].
    simpl in H.
    destruct (log (flow s)) eqn:Elog; [|exfalso; exact (inv_log s I Elog)].
    destruct (controller.Synchronize _ _) as [sc err]. inv_some.
    destruct (inv_wf s I) as (Hcap & Hlen & Hcl & Hex0).
    destruct (recv_frame _ _ Er) as (Hcap' & Hlen' & Hcl').
    destruct I. constructor; simpl; auto; try loop_alive.
    + unfold wf. simpl. repeat split; try congruence. lia.
    + intros Honce. exfalso. destruct (inv_first_load0 Honce) as [H0 _].
      destruct (recv_empty_closed _ _ H0 Er) as [Hclosed _]. congruence.
Qed.

Lemma execs_invariant (ls : list label) (s s' : Sys) :
  invariant s -> execs s ls = Some s' -> invariant s'.
Proof.
  revert s. induction ls as [|l ls IH]; simpl; intros s I H.
  - inv_some. exact I.
  - destruct (exec s l) as [s1|] eqn:E; [|discriminate].
    eapply IH; [eapply exec_invariant; eauto | exact H].
Qed.

Lemma reachable_invariant (o : Options) (s : Sys) :
  reachable o s -> invariant s.
Proof.
  intros (s0 & ls & H0 & Hs).
  eapply execs_invariant; [eapply New_invariant; eauto | exact Hs].
Qed.

Lemma reachable_step (o : Options) (s s' : Sys) (l : label) :
  reachable o s -> exec s l = Some s' -> reachable o s'.
Proof.
  intros (s0 & ls & H0 & Hs) H. exists s0, (ls ++ [l]). split; [exact H0|].
  clear H0. revert s0 Hs. induction ls as [|a ls IH]; simpl; intros s0 Hs.
  - inv_some. rewrite H. reflexivity.
  - destruct (exec s0 a); [|discriminate]. eauto.
Qed.

(** ** Loading *)

Lemma exec_loadedOnce (s s' : Sys) (l : label) :
  exec s l = Some s' -> loadedOnce (flow s) = true -> loadedOnce (flow s') = true.
Proof.
  intros H Honce. pose proof (exec_running _ _ _ H) as Hrun.
  unfold exec in H. rewrite Hrun in H. destruct l.
  - destruct (LoadFile (flow s) file) as [[c r]|v] eqn:E; inv_some; simpl; auto.
    apply LoadFile_frame in E as (_ & _ & _ & _ & _ & _ & [[_ Ho]|[_ Ho]]);
      congruence.
  - inv_some. exact Honce.
  - destruct (closer s); try discriminate. inv_some. exact Honce.
  - unfold Close_return in H. destruct (closer s); try discriminate.
    destruct (Chan.recv (exited (flow s))); [|discriminate].
    destruct (controller.Close (sched (flow s))). inv_some. exact Honce.
  - unfold run_Done in H. destruct (loop s); try discriminate.
    destruct (ctxDone (flow s)); [|discriminate].
    destruct (log (flow s)); inv_some; exact Honce.
  - unfold run_Chan in H. destruct (loop s); try discriminate.
    destruct (Chan.recv _); [|discriminate]. inv_some. exact Honce.
  - unfold run_TryDequeue in H. destruct (loop s); try discriminate.
    destruct (controller.TryDequeue (updateQueue (flow s))) as [[updated|] q];
      simpl in H.
    + destruct (log (flow s)); [|inv_some; exact Honce].
      destruct (controller.EvaluateDependencies _ _). inv_some. exact Honce.
    + inv_some. exact Honce.
  - unfold run_loadFinished in H. destruct (loop s); try discriminate.
    destruct (Chan.recv (loadFinished (flow s))); [|discriminate]. simpl in H.
    destruct (log (flow s)); [|inv_some; exact Honce].
    destruct (controller.Synchronize _ _). inv_some. exact Honce.
Qed.

(** The first-successful-load flag, once set, stays set. *)
Lemma loadedOnce_sticky (ls : list label) (s s' : Sys) :
  execs s ls = Some s' -> loadedOnce (flow s) = true -> loadedOnce (flow s') = true.
Proof.
  revert s. induction ls as [|l ls IH]; simpl; intros s H Honce.
  - inv_some. exact Honce.
  - destruct (exec s l) as [s1|] eqn:E; [|discriminate].
    eapply IH; [exact H | eapply exec_loadedOnce; eauto].
Qed.

Lemma HasErrors_ErrorOrNil (ds : diag.Diagnostics) :
  diag.HasErrors ds = true -> ErrorOrNil ds = Some (diagError ds).
Proof. destruct ds; [discriminate | reflexivity]. Qed.

(** While no load has been accepted the loop cannot take the load-finished
    case: there is nothing to receive. *)
Lemma no_load_no_synchronize (s : Sys) :
  invariant s -> loadedOnce (flow s) = false ->
  Chan.pending (loadFinished (flow s)) = false /\
  exec s LoopLoadFinished = None /\
  forall runnables, ~ In (EvSynchronize runnables) (trace s).
Proof.
  intros I Honce. destruct (inv_first_load s I Honce) as [H0 Hn].
  destruct (inv_wf s I) as (_ & _ & Hcl & _).
  assert (Chan.recv (loadFinished (flow s)) = None) as Hr.
  { unfold Chan.recv. rewrite H0, Hcl. reflexivity. }
  repeat split.
  - unfold Chan.pending. rewrite H0. reflexivity.
  - unfold exec, run_loadFinished. rewrite Hr.
    destruct (crashed s), (loop s); reflexivity.
  - exact Hn.
Qed.

(** C1, as the code has it. Take a LoadFile whose logger reconfiguration
    succeeds, so that Apply runs.  Before any load has been accepted, if
    the diagnostics of Apply contain errors, LoadFile hands those
    diagnostics to the caller, leaves the flag unset and the load-finished
    channel untouched and empty, so the loop cannot reach Synchronize and
    never has.  Once the flag is set it stays set along every schedule,
    and LoadFile does the non-blocking send, after which a notification is
    pending, and returns [diags.ErrorOrNil()], which is the diagnostics
    themselves when they contain errors. *)
Theorem LoadFile_first_load_policy
    (o : Options) (s : Sys) (file : File) (diags : diag.Diagnostics) :
  reachable o s ->
  reachesApply (flow s) file diags ->
  exists s' r,
    exec s (CallLoadFile file) = Some s' /\
    LoadFile (flow s) file = Ok (flow s', r) /\
    (loadedOnce (flow s) = false -> diag.HasErrors diags = true ->
       r = Some (diagError diags) /\
       loadedOnce (flow s') = false /\
       loadFinished (flow s') = loadFinished (flow s) /\
       Chan.pending (loadFinished (flow s')) = false /\
       exec s' LoopLoadFinished = None /\
       forall runnables, ~ In (EvSynchronize runnables) (trace s')) /\
    (loadedOnce (flow s) = true ->
       r = ErrorOrNil diags /\
       (diag.HasErrors diags = true -> r = Some (diagError diags)) /\
       loadedOnce (flow s') = true /\
       loadFinished (flow s') = Chan.try_send (loadFinished (flow s)) /\
       Chan.pending (loadFinished (flow s')) = true) /\
    (forall ls s'',
       loadedOnce (flow s) = true -> execs s ls = Some s'' ->
       loadedOnce (flow s'') = true) /\
    (forall ls s'',
       loadedOnce (flow s') = true -> execs s' ls = Some s'' ->
       loadedOnce (flow s'') = true).
Proof.
  intros Hreach (l & l' & ld & changed & Hlog & HU & HA).
  pose proof (reachable_invariant o s Hreach) as I.
  destruct (LoadFile_returns (flow s) file (inv_log s I)) as (c' & r & E).
  assert (exec s (CallLoadFile file) =
          Some (mkSys c' (loop s) (closer s) false (trace s))) as Hx.
  { unfold exec. rewrite (inv_running s I), E. reflexivity. }
  pose proof (exec_invariant _ _ _ I Hx) as I'.
  eexists _, r. split; [exact Hx|]. simpl. split; [exact E|].
  split; [|split; [|split]].
  - intros Honce Herr.
    rewrite (LoadFile_rejects _ _ _ _ _ _ _ Hlog HU HA Honce Herr) in E.
    injection E as <- <-. simpl.
    destruct (no_load_no_synchronize _ I') as (Hp & Hx' & Hn); [exact Honce|].
    repeat split; auto.
  - intros Honce.
    rewrite (LoadFile_accepts _ _ _ _ _ _ _ Hlog HU HA) in E
      by (rewrite Honce; reflexivity).
    injection E as <- <-. simpl.
    destruct (inv_wf s I) as (Hcap & Hlen & _ & _).
    repeat split; auto using HasErrors_ErrorOrNil.
    apply pending_len. rewrite try_send_len by assumption. lia.
  - intros ls s'' Honce Hs. exact (loadedOnce_sticky ls _ _ Hs Honce).
  - intros ls s'' Honce Hs. exact (loadedOnce_sticky ls _ _ Hs Honce).
Qed.

(** C2, as the code has it. On the first load LoadFile rejects exactly when
    the diagnostics of Apply contain one of error severity: it then returns
    the diagnostics, leaves the flag unset and sends nothing.  Diagnostics
    without an error (warnings only, or none) do not reject the first load:
    the flag is set, the notification is sent and the caller gets
    [diags.ErrorOrNil()].  After an accepted load, diagnostics with errors
    do not reject either. *)
Theorem LoadFile_rejects_first_load_on_errors_only
    (c : Flow) (file : File) (diags : diag.Diagnostics) :
  reachesApply c file diags ->
  exists c' r,
    LoadFile c file = Ok (c', r) /\
    (loadedOnce c = false -> diag.HasErrors diags = true ->
       r = Some (diagError diags) /\ loadedOnce c' = false /\
       loadFinished c' = loadFinished c) /\
    (loadedOnce c = false -> diag.HasErrors diags = false ->
       r = ErrorOrNil diags /\ loadedOnce c' = true /\
       loadFinished c' = Chan.try_send (loadFinished c)) /\
    (loadedOnce c = true ->
       r = ErrorOrNil diags /\ loadedOnce c' = true /\
       loadFinished c' = Chan.try_send (loadFinished c)).
Proof.
  intros (l & l' & ld & changed & Hlog & HU & HA).
  destruct (negb (loadedOnce c) && diag.HasErrors diags) eqn:Eg.
  - apply andb_true_iff in Eg as [Ho He]. apply negb_true_iff in Ho.
    eexists _, _. split; [eapply LoadFile_rejects; eauto|].
    simpl. repeat split; auto; congruence.
  - eexists _, _. split; [eapply LoadFile_accepts; eauto|].
    simpl. split; [|split]; [|repeat split; auto..].
    intros Ho He. rewrite Ho, He in Eg. discriminate.
Qed.

(** C9. When the reconfiguration of the logger fails, LoadFile returns that
    error, wrapped, and Apply has not run: the loader and with it the
    graph and the component infos, the flag, the load-finished channel, the
    queue and the scheduler are as they were. *)
Theorem LoadFile_logger_failure_leaves_controller
    (c : Flow) (file : File) (l l' : logging.Logger) (err : error) :
  log c = Some l ->
  logging.Update l (Logging file) = (l', Some err) ->
  exists c',
    LoadFile c file = Ok (c', Some (wrapError "error updating logger: " err)) /\
    loader c' = loader c /\
    controller.OriginalGraph_Edges (loader c') = controller.OriginalGraph_Edges (loader c) /\
    ComponentInfos c' = ComponentInfos c /\
    loadedOnce c' = loadedOnce c /\
    loadFinished c' = loadFinished c /\
    updateQueue c' = updateQueue c /\
    sched c' = sched c /\
    ctxDone c' = ctxDone c /\ exited c' = exited c /\
    opts c' = opts c /\ globals c' = globals c.
Proof.
  intros Hlog HU. exists (withLog c (Some l')).
  split; [apply (LoadFile_logger_error c file l l' err); assumption|].
  simpl. repeat split; reflexivity.
Qed.

(** C6. The load-finished channel is made with capacity one and never holds
    more than one notification.  LoadFile always returns: its send is the
    non-blocking one, so when a notification is pending, where a plain send
    would block, the channel is left as it is. *)
Theorem loadFinished_send_never_blocks (o : Options) (s : Sys) (file : File) :
  reachable o s ->
  (forall c0, newFlow o = Ok c0 -> loadFinished c0 = Chan.make 1) /\
  Chan.cap (loadFinished (flow s)) = 1 /\
  Chan.len (loadFinished (flow s)) <= 1 /\
  exists c' r,
    LoadFile (flow s) file = Ok (c', r) /\
    Chan.len (loadFinished c') <= 1 /\
    (Chan.pending (loadFinished (flow s)) = true ->
       Chan.send (loadFinished (flow s)) = None /\
       loadFinished c' = loadFinished (flow s)).
Proof.
  intros Hreach. pose proof (reachable_invariant o s Hreach) as I.
  destruct (inv_wf s I) as (Hcap & Hlen & Hcl & Hex).
  split; [|split; [exact Hcap | split; [exact Hlen|]]].
  - intros c0 H0. apply newFlow_shape in H0. destruct H0 as (l0 & H0).
    tauto.
  - destruct (LoadFile_returns (flow s) file (inv_log s I)) as (c' & r & E).
    exists c', r. split; [exact E|].
    destruct (LoadFile_wf _ _ _ _ (inv_wf s I) E) as (_ & Hlen' & _ & _).
    split; [exact Hlen'|].
    intros Hp. apply pending_len in Hp.
    assert (Chan.send (loadFinished (flow s)) = None) as Hsend.
    { apply send_blocked_full. lia. }
    split; [exact Hsend|].
    apply LoadFile_frame in E as (_ & _ & _ & _ & _ & _ & [[Hlf _]|[Hlf _]]).
    + exact Hlf.
    + rewrite Hlf. apply try_send_blocked. exact Hsend.
Qed.

(** ** The event loop *)

Lemma callbacks_keep (c : Flow) (changed : list controller.ComponentNode)
    (n : controller.ComponentNode) :
  callbackEnqueues c ->
  In n (controller.queued (updateQueue c)) ->
  In n (controller.queued (updateQueue (exportsChanged c changed))).
Proof.
  intros Hcb. unfold exportsChanged. simpl.
  generalize (updateQueue c) as q.
  induction changed as [|cn changed IH]; simpl; intros q Hin.
  - exact Hin.
  - apply IH. rewrite Hcb. apply Enqueue_keeps. exact Hin.
Qed.

(** One turn of the inner loop, seen from the queue. *)
Lemma run_TryDequeue_break (c : Flow) :
  run_TryDequeue c = Ok None <-> controller.queued (updateQueue c) = [].
Proof.
  unfold run_TryDequeue, controller.TryDequeue.
  destruct (controller.queued (updateQueue c)) as [|n rest]; simpl.
  - split; reflexivity.
  - split; [|discriminate].
    destruct (log c); [|discriminate].
    destruct (controller.EvaluateDependencies (loader c) n). discriminate.
Qed.

Lemma run_TryDequeue_turn (c c1 : Flow) (updated : controller.ComponentNode) :
  run_TryDequeue c = Ok (Some (updated, c1)) ->
  exists rest,
    controller.queued (updateQueue c) = updated :: rest /\
    log c <> None /\
    c1 = exportsChanged
           (withLoader
              (withUpdateQueue c (controller.mkQueue rest (controller.updateCh (updateQueue c))))
              (fst (controller.EvaluateDependencies (loader c) updated)))
           (snd (controller.EvaluateDependencies (loader c) updated)).
Proof.
  unfold run_TryDequeue, controller.TryDequeue.
  destruct (controller.queued (updateQueue c)) as [|n rest]; simpl; [discriminate|].
  destruct (log c) eqn:El; [|discriminate].
  destruct (controller.EvaluateDependencies (loader c) n) as [ld changed] eqn:Ee.
  intros [= <- <-]. exists rest. rewrite Ee. simpl.
  split; [reflexivity | split; [discriminate | reflexivity]].
Qed.

(** When the inner loop ends, the queue is empty and every node that was
    queued at its start has been evaluated. *)
Lemma drain_sound (fuel : nat) (c c' : Flow)
    (evaluated : list controller.ComponentNode) :
  callbackEnqueues c ->
  drain fuel c = Some (Ok (evaluated, c')) ->
  controller.queued (updateQueue c') = [] /\
  forall n, In n (controller.queued (updateQueue c)) -> In n evaluated.
Proof.
  revert c evaluated. induction fuel as [|fuel IH]; simpl; intros c evaluated Hcb H.
  - discriminate.
  - destruct (run_TryDequeue c) as [[[updated c1]|]|v] eqn:E.
    + destruct (drain fuel c1) as [[[evs c2]|v]|] eqn:Ed; try discriminate.
      injection H as <- <-.
      apply run_TryDequeue_turn in E as (rest & Hq & _ & Hc1).
      assert (callbackEnqueues c1) as Hcb1 by (subst c1; exact Hcb).
      destruct (IH _ _ Hcb1 Ed) as [Hempty Hall].
      split; [exact Hempty|]. intros n Hin. rewrite Hq in Hin.
      destruct Hin as [<-|Hin]; [left; reflexivity|]. right. apply Hall.
      subst c1. apply callbacks_keep; [exact Hcb|]. exact Hin.
    + injection H as <- <-. apply run_TryDequeue_break in E.
      split; [exact E|]. rewrite E. intros n [].
    + discriminate.
Qed.

(** The inner loop is the loop's drain action, taken once per evaluated
    node and once more for the [break]. *)
Lemma drain_execs (fuel : nat) (s : Sys) (c' : Flow)
    (evaluated : list controller.ComponentNode) :
  crashed s = false ->
  loop s = LoopDrain ->
  drain fuel (flow s) = Some (Ok (evaluated, c')) ->
  execs s (repeat LoopTryDequeue (S (List.length evaluated))) =
    Some (mkSys c' LoopSelect (closer s) false (trace s ++ map EvEvaluate evaluated)).
Proof.
  revert s evaluated. induction fuel as [|fuel IH]; intros s evaluated Hrun Hl H.
  - discriminate.
  - simpl in H. destruct (run_TryDequeue (flow s)) as [[[updated c1]|]|v] eqn:E.
    + destruct (drain fuel c1) as [[[evs c2]|v]|] eqn:Ed; try discriminate.
      injection H as <- <-.
      change (repeat LoopTryDequeue (S (List.length (updated :: evs))))
        with (LoopTryDequeue :: repeat LoopTryDequeue (S (List.length evs))).
      cbn [execs]. unfold exec at 1. rewrite Hrun, Hl, E.
      rewrite (IH (mkSys c1 LoopDrain (closer s) false
                         (trace s ++ [EvEvaluate updated])) evs)
        by (simpl; auto).
      simpl. rewrite <- app_assoc. reflexivity.
    + injection H as <- <-. simpl. unfold exec. rewrite Hrun, Hl, E.
      rewrite app_nil_r. reflexivity.
    + discriminate.
Qed.

Lemma drain_S (fuel : nat) (c : Flow) :
  drain (S fuel) c =
    match run_TryDequeue c with
    | Panic v => Some (Panic v)
    | Ok None => Some (Ok ([], c))
    | Ok (Some (updated, c)) =>
      match drain fuel c with
      | Some (Ok (evaluated, c)) => Some (Ok (updated :: evaluated, c))
      | other => other
      end
    end.
Proof. reflexivity. Qed.

(** If evaluating a node changes no exports, the inner loop ends after as
    many evaluations as there are queued nodes. *)
Lemma drain_terminates_quiet (c : Flow) :
  (forall ld cn, snd (controller.EvaluateDependencies ld cn) = []) ->
  log c <> None ->
  exists c',
    drain (S (List.length (controller.queued (updateQueue c)))) c =
      Some (Ok (controller.queued (updateQueue c), c')).
Proof.
  intros Hquiet.
  remember (controller.queued (updateQueue c)) as q eqn:Hq.
  revert c Hq. induction q as [|n rest IH]; intros c Hq Hlog.
  - exists c. rewrite drain_S.
    rewrite (proj2 (run_TryDequeue_break c)) by (symmetry; exact Hq).
    reflexivity.
  - change (List.length (n :: rest)) with (S (List.length rest)).
    rewrite drain_S.
    destruct (run_TryDequeue c) as [[[updated c1]|]|v] eqn:E.
    + apply run_TryDequeue_turn in E as (rest' & Hq' & _ & Hc1).
      rewrite <- Hq in Hq'. injection Hq' as <- <-.
      rewrite Hquiet in Hc1.
      destruct (IH c1) as (c' & Hd).
      * subst c1. reflexivity.
      * subst c1. exact Hlog.
      * exists c'. rewrite Hd. reflexivity.
    + apply run_TryDequeue_break in E. congruence.
    + exfalso. unfold run_TryDequeue, controller.TryDequeue in E.
      rewrite <- Hq in E. simpl in E.
      destruct (log c); [|congruence].
      destruct (controller.EvaluateDependencies (loader c) n). discriminate.
Qed.

(** C3. A receive from the queue's channel puts the loop into its inner
    loop.  There, the loop takes no other case of the select; each turn
    calls TryDequeue, and either gets a node, calls EvaluateDependencies on
    it and stays in the inner loop, or gets nil and is back at the select.
    Run to its end, the inner loop leaves the queue empty and has evaluated
    every node that was queued when it began; it does end, after one
    evaluation per queued node, when evaluations change no exports. *)
Theorem run_drains_update_queue (o : Options) (s0 s : Sys) :
  reachable o s0 ->
  exec s0 LoopChan = Some s ->
  loop s = LoopDrain /\
  (forall s1, reachable o s1 -> loop s1 = LoopDrain ->
     exec s1 LoopDone = None /\ exec s1 LoopChan = None /\
     exec s1 LoopLoadFinished = None /\
     exists s2,
       exec s1 LoopTryDequeue = Some s2 /\
       match controller.TryDequeue (updateQueue (flow s1)) with
       | (None, _) =>
         loop s2 = LoopSelect /\ flow s2 = flow s1 /\ trace s2 = trace s1
       | (Some updated, _) =>
         loop s2 = LoopDrain /\
         trace s2 = trace s1 ++ [EvEvaluate updated] /\
         loader (flow s2) =
           fst (controller.EvaluateDependencies (loader (flow s1)) updated)
       end) /\
  (forall fuel evaluated c',
     drain fuel (flow s) = Some (Ok (evaluated, c')) ->
     controller.TryDequeue (updateQueue c') = (None, updateQueue c') /\
     (forall n, In n (controller.queued (updateQueue (flow s))) -> In n evaluated) /\
     execs s (repeat LoopTryDequeue (S (List.length evaluated))) =
       Some (mkSys c' LoopSelect (closer s) false
                   (trace s ++ map EvEvaluate evaluated))) /\
  ((forall ld cn, snd (controller.EvaluateDependencies ld cn) = []) ->
   exists c',
     drain (S (List.length (controller.queued (updateQueue (flow s))))) (flow s) =
       Some (Ok (controller.queued (updateQueue (flow s)), c'))).
Proof.
  intros Hreach Hx.
  pose proof (reachable_step _ _ _ _ Hreach Hx) as Hreach'.
  pose proof (reachable_invariant _ _ Hreach') as I.
  assert (loop s = LoopDrain) as Hl.
  { pose proof (exec_running _ _ _ Hx) as Hrun.
    unfold exec in Hx. rewrite Hrun in Hx.
    destruct (loop s0); try discriminate.
    destruct (run_Chan (flow s0)); [|discriminate]. inv_some. reflexivity. }
  split; [exact Hl|]. split; [|split].
  - intros s1 Hr1 Hl1. pose proof (reachable_invariant _ _ Hr1) as I1.
    unfold exec. rewrite (inv_running s1 I1), Hl1.
    repeat split; try reflexivity.
    unfold run_TryDequeue, controller.TryDequeue.
    destruct (controller.queued (updateQueue (flow s1))) as [|n rest]; simpl.
    + eexists. split; [reflexivity|]. simpl. auto.
    + destruct (log (flow s1)) eqn:El; [|exfalso; exact (inv_log s1 I1 El)].
      destruct (controller.EvaluateDependencies (loader (flow s1)) n)
        as [ld changed].
      eexists. split; [reflexivity|]. simpl. auto.
  - intros fuel evaluated c' Hd.
    destruct (drain_sound _ _ _ _ (inv_callback s I) Hd) as [Hempty Hall].
    split; [|split].
    + unfold controller.TryDequeue. rewrite Hempty. reflexivity.
    + exact Hall.
    + apply (drain_execs fuel); auto. exact (inv_running s I).
  - intros Hquiet. apply drain_terminates_quiet; [exact Hquiet|].
    exact (inv_log s I).
Qed.

(** C4. The callback in the globals of a running controller is Enqueue on
    the update queue and nothing else.  When a component reports changed
    exports, the node is in the queue afterwards; the loader, the
    scheduler and the rest of the controller are as before, the loop is
    where it was, and nothing was evaluated or scheduled. *)
Theorem OnExportsChange_only_enqueues
    (o : Options) (s : Sys) (cn : controller.ComponentNode) :
  reachable o s ->
  (forall q, controller.OnExportsChange (globals (flow s)) cn q
             = controller.Enqueue q cn) /\
  exists s',
    exec s (WorkerExportsChange cn) = Some s' /\
    flow s' = withUpdateQueue (flow s) (controller.Enqueue (updateQueue (flow s)) cn) /\
    existsb (controller.sameNode cn) (controller.queued (updateQueue (flow s'))) = true /\
    loader (flow s') = loader (flow s) /\
    sched (flow s') = sched (flow s) /\
    loop s' = loop s /\ closer s' = closer s /\ trace s' = trace s.
Proof.
  intros Hreach. pose proof (reachable_invariant _ _ Hreach) as I.
  split; [intros q; apply (inv_callback s I)|].
  eexists. split.
  - unfold exec. rewrite (inv_running s I). reflexivity.
  - simpl. unfold exportsChanged. simpl. rewrite (inv_callback s I).
    repeat split. apply Enqueue_present.
Qed.

(** C5. Close first cancels the context, and a Close that was not called
    yet can always do so.  It cannot go on while the loop has not returned;
    the cancelled loop, back at its select, can return, closing [exited].
    When Close goes on, the loop has returned, and only then is the
    Scheduler closed; what Scheduler.Close returns is what Close returns.
    Once the loop has returned, a waiting Close does go on: its receive
    from [exited] succeeds, it closes the Scheduler and returns that
    result.  In no state has the Scheduler been closed, or Close returned,
    with the loop still running, and in the history every close of the
    Scheduler comes after the exit of the loop. *)
Theorem Close_waits_for_loop_exit (o : Options) (s : Sys) :
  reachable o s ->
  (forall s', exec s CallClose = Some s' ->
     ctxDone (flow s') = true /\ closer s' = CloseWaiting /\
     trace s' = trace s) /\
  (closer s = CloseNotCalled ->
     exists s', exec s CallClose = Some s' /\ ctxDone (flow s') = true /\
                closer s' = CloseWaiting /\ loop s' = loop s) /\
  (loop s <> LoopExited -> exec s CloseResume = None) /\
  (ctxDone (flow s) = true -> loop s = LoopSelect ->
     exists s', exec s LoopDone = Some s' /\ loop s' = LoopExited /\
                Chan.closed (exited (flow s')) = true) /\
  (forall s', exec s CloseResume = Some s' ->
     closer s = CloseWaiting /\ ctxDone (flow s') = ctxDone (flow s) /\
     loop s = LoopExited /\ In EvLoopExited (trace s) /\
     trace s' = trace s ++ [EvSchedulerClose] /\
     sched (flow s') = fst (controller.Close (sched (flow s))) /\
     closer s' = CloseReturned (snd (controller.Close (sched (flow s))))) /\
  (loop s = LoopExited -> closer s = CloseWaiting ->
     exists s', exec s CloseResume = Some s' /\
                closer s' = CloseReturned (snd (controller.Close (sched (flow s)))) /\
                sched (flow s') = fst (controller.Close (sched (flow s))) /\
                trace s' = trace s ++ [EvSchedulerClose] /\
                loop s' = LoopExited) /\
  (In EvSchedulerClose (trace s) -> loop s = LoopExited) /\
  (forall err, closer s = CloseReturned err -> loop s = LoopExited) /\
  closeAfterExit (trace s).
Proof.
  intros Hreach. pose proof (reachable_invariant _ _ Hreach) as I.
  destruct (inv_wf s I) as (_ & _ & _ & Hex0).
  split; [|split; [|split; [|split; [|split; [|split; [|split; [|split]]]]]]].
  - intros s' H. unfold exec in H. rewrite (inv_running s I) in H.
    destruct (closer s); try discriminate. inv_some. simpl. auto.
  - intros Hc. unfold exec. rewrite (inv_running s I), Hc.
    eexists. split; [reflexivity|]. simpl. auto.
  - intros Hl. unfold exec, Close_return. rewrite (inv_running s I).
    destruct (closer s); try reflexivity.
    destruct (Chan.recv (exited (flow s))) as [ch|] eqn:Er; [|reflexivity].
    exfalso. apply Hl. apply (inv_exited s I).
    exact (proj1 (recv_empty_closed _ _ Hex0 Er)).
  - intros Hdone Hl. unfold exec, run_Done.
    rewrite (inv_running s I), Hl, Hdone.
    destruct (log (flow s)) eqn:El; [|exfalso; exact (inv_log s I El)].
    eexists. split; [reflexivity|]. simpl. auto.
  - intros s' H. unfold exec, Close_return in H. rewrite (inv_running s I) in H.
    destruct (closer s) eqn:Ec; try discriminate.
    destruct (Chan.recv (exited (flow s))) as [ch|] eqn:Er; [|discriminate].
    destruct (recv_empty_closed _ _ Hex0 Er) as [Hclosed ->].
    destruct (controller.Close (sched (flow s))) as [sc err]. inv_some.
    pose proof (proj1 (inv_exited s I) Hclosed) as Hloop.
    simpl. repeat split; auto. exact (inv_loop_exit s I Hloop).
  - intros Hl Hc.
    pose proof (proj2 (inv_exited s I) Hl) as Hclosed.
    unfold exec, Close_return, Chan.recv.
    rewrite (inv_running s I), Hc, Hclosed, Hex0. simpl.
    destruct (controller.Close (sched (flow s))) as [sc err].
    eexists. split; [reflexivity|]. simpl. auto.
  - exact (inv_sched_close s I).
  - exact (inv_closer s I).
  - exact (inv_close_order s I).
Qed.

(** C10. With a nil Logger in the options, and the logging package able to
    build its default logger on the discarding writer, New returns a
    running controller whose logger, and the one in the component globals,
    is that logger.  From then on the logger is never nil: no action
    panics, and every LoadFile returns. *)
Theorem New_with_nil_logger (o : Options) (l : logging.Logger) :
  Logger o = None ->
  logging.New io.Discard logging.DefaultOptions = inl l ->
  exists s0,
    New o = Ok s0 /\
    log (flow s0) = Some l /\
    controller.Logger_of (globals (flow s0)) = l /\
    loop s0 = LoopSelect /\ closer s0 = CloseNotCalled /\
    forall ls s, execs s0 ls = Some s ->
      crashed s = false /\ log (flow s) <> None /\
      forall file, exists c' r, LoadFile (flow s) file = Ok (c', r).
Proof.
  intros Hnil Hnew.
  assert (exists c, newFlow o = Ok c) as [c Hc].
  { unfold newFlow. rewrite Hnil, Hnew. eexists. reflexivity. }
  exists (mkSys c LoopSelect CloseNotCalled false []).
  assert (New o = Ok (mkSys c LoopSelect CloseNotCalled false [])) as HN.
  { unfold New. rewrite Hc. reflexivity. }
  split; [exact HN|].
  apply newFlow_shape in Hc
    as (l0 & Hl & _ & _ & _ & Hg & _ & _ & _ & _ & _ & Hmade).
  rewrite Hnil, Hnew in Hmade. injection Hmade as ->.
  simpl. repeat split; auto.
  - pose proof (execs_invariant ls _ _ (New_invariant _ _ HN) H) as I.
    exact (inv_running s I).
  - pose proof (execs_invariant ls _ _ (New_invariant _ _ HN) H) as I.
    exact (inv_log s I).
  - pose proof (execs_invariant ls _ _ (New_invariant _ _ HN) H) as I.
    intros file. apply LoadFile_returns. exact (inv_log s I).
Qed.

(** ** Component infos *)

(** The loop over the edges, in closed form: an edge out of the node adds
    its target to the references; any other edge into the node adds its
    source to the referrers. *)
Lemma fold_scanEdge (cn : controller.ComponentNode) (edges : list dag.Edge)
    (refs refBy : list string) :
  fold_left (scanEdge cn) edges (refs, refBy) =
    (refs ++ map (fun e => dag.NodeID (dag.To e))
               (filter (fun e => String.eqb (dag.NodeID (dag.From e)) (controller.NodeID cn))
                       edges),
     refBy ++ map (fun e => dag.NodeID (dag.From e))
                (filter (fun e => negb (String.eqb (dag.NodeID (dag.From e)) (controller.NodeID cn))
                                  && String.eqb (dag.NodeID (dag.To e)) (controller.NodeID cn))
                        edges)).
Proof.
  revert refs refBy. induction edges as [|e edges IH]; intros refs refBy; simpl.
  - rewrite !app_nil_r. reflexivity.
  - destruct (String.eqb (dag.NodeID (dag.From e)) (controller.NodeID cn)); simpl.
    + rewrite IH, <- app_assoc. reflexivity.
    + destruct (String.eqb (dag.NodeID (dag.To e)) (controller.NodeID cn)); simpl.
      * rewrite IH, <- app_assoc. reflexivity.
      * apply IH.
Qed.

Lemma newFromNode_References (cn : controller.ComponentNode) (edges : list dag.Edge) :
  References (newFromNode cn edges) =
    map (fun e => dag.NodeID (dag.To e))
        (filter (fun e => String.eqb (dag.NodeID (dag.From e)) (controller.NodeID cn))
                edges).
Proof. unfold newFromNode. rewrite fold_scanEdge. reflexivity. Qed.

Lemma newFromNode_ReferencedBy (cn : controller.ComponentNode) (edges : list dag.Edge) :
  ReferencedBy (newFromNode cn edges) =
    map (fun e => dag.NodeID (dag.From e))
        (filter (fun e => negb (String.eqb (dag.NodeID (dag.From e)) (controller.NodeID cn))
                          && String.eqb (dag.NodeID (dag.To e)) (controller.NodeID cn))
                edges).
Proof. unfold newFromNode. rewrite fold_scanEdge. reflexivity. Qed.

(** Every field of the info but the two lists is read off the node, or is
    a constant. *)
Lemma newFromNode_fields (cn : controller.ComponentNode) (edges : list dag.Edge) :
  ID (newFromNode cn edges) = controller.NodeID cn /\
  Name (newFromNode cn edges) = controller.ComponentName cn /\
  Type_ (newFromNode cn edges) = "block" /\
  Label (newFromNode cn edges) = controller.Label cn /\
  Health (newFromNode cn edges) =
    Some {| State := component.HealthType_String
                       (component.Health_of (controller.CurrentHealth cn));
            Message := component.Message (controller.CurrentHealth cn);
            UpdatedTime := component.UpdateTime (controller.CurrentHealth cn) |} /\
  Original (newFromNode cn edges) = "" /\
  Arguments (newFromNode cn edges) = [] /\
  Exports (newFromNode cn edges) = [] /\
  DebugInfo (newFromNode cn edges) = [].
Proof.
  unfold newFromNode. destruct (fold_left (scanEdge cn) edges ([], [])).
  simpl. repeat split.
Qed.

Lemma ComponentInfos_nth (c : Flow) (i : nat) (com : controller.ComponentNode) :
  nth_error (controller.Components (loader c)) i = Some com ->
  nth_error (ComponentInfos c) i =
    Some (newFromNode com (controller.OriginalGraph_Edges (loader c))).
Proof.
  intros H. unfold ComponentInfos. rewrite nth_error_map, H. reflexivity.
Qed.

(** C7, as the code has it. ComponentInfos returns one info per loaded
    component, in order.  The info has the component's node id, its
    component name, the constant type "block", its label, the references
    and referrers computed from the edges, and its health (state as a
    string, message, time).  Arguments and exports are left nil, as are
    the original source and the debug info. *)
Theorem ComponentInfos_fields
    (c : Flow) (i : nat) (com : controller.ComponentNode) :
  nth_error (controller.Components (loader c)) i = Some com ->
  List.length (ComponentInfos c) = List.length (controller.Components (loader c)) /\
  exists info,
    nth_error (ComponentInfos c) i = Some info /\
    ID info = controller.NodeID com /\
    Name info = controller.ComponentName com /\
    Type_ info = "block" /\
    Label info = controller.Label com /\
    References info =
      map (fun e => dag.NodeID (dag.To e))
          (filter (fun e => String.eqb (dag.NodeID (dag.From e)) (controller.NodeID com))
                  (controller.OriginalGraph_Edges (loader c))) /\
    ReferencedBy info =
      map (fun e => dag.NodeID (dag.From e))
          (filter (fun e => negb (String.eqb (dag.NodeID (dag.From e)) (controller.NodeID com))
                            && String.eqb (dag.NodeID (dag.To e)) (controller.NodeID com))
                  (controller.OriginalGraph_Edges (loader c))) /\
    Health info =
      Some {| State := component.HealthType_String
                         (component.Health_of (controller.CurrentHealth com));
              Message := component.Message (controller.CurrentHealth com);
              UpdatedTime := component.UpdateTime (controller.CurrentHealth com) |} /\
    Arguments info = [] /\ Exports info = [] /\
    Original info = "" /\ DebugInfo info = [].
Proof.
  intros H. split; [unfold ComponentInfos; apply length_map|].
  eexists. split; [apply ComponentInfos_nth; exact H|].
  rewrite newFromNode_References, newFromNode_ReferencedBy.
  destruct (newFromNode_fields com (controller.OriginalGraph_Edges (loader c)))
    as (? & ? & ? & ? & ? & ? & ? & ? & ?).
  repeat split; assumption.
Qed.

(** C8. In a graph without an edge from a node to itself, as every
    acyclic graph is, the References of a component's info are the targets
    of the edges that leave the component, and its ReferencedBy the sources
    of the edges that enter it, both in the order of the edge list. *)
Theorem ComponentInfos_references_follow_edges
    (c : Flow) (i : nat) (com : controller.ComponentNode) :
  (forall e, In e (controller.OriginalGraph_Edges (loader c)) ->
             dag.NodeID (dag.From e) <> dag.NodeID (dag.To e)) ->
  nth_error (controller.Components (loader c)) i = Some com ->
  exists info,
    nth_error (ComponentInfos c) i = Some info /\
    ID info = controller.NodeID com /\
    References info =
      map (fun e => dag.NodeID (dag.To e))
          (filter (fun e => String.eqb (dag.NodeID (dag.From e)) (controller.NodeID com))
                  (controller.OriginalGraph_Edges (loader c))) /\
    ReferencedBy info =
      map (fun e => dag.NodeID (dag.From e))
          (filter (fun e => String.eqb (dag.NodeID (dag.To e)) (controller.NodeID com))
                  (controller.OriginalGraph_Edges (loader c))) /\
    (forall b, In b (References info) <->
       exists e, In e (controller.OriginalGraph_Edges (loader c)) /\
                 dag.NodeID (dag.From e) = controller.NodeID com /\
                 dag.NodeID (dag.To e) = b) /\
    (forall a, In a (ReferencedBy info) <->
       exists e, In e (controller.OriginalGraph_Edges (loader c)) /\
                 dag.NodeID (dag.From e) = a /\
                 dag.NodeID (dag.To e) = controller.NodeID com).
Proof.
  intros Hirr H. eexists. split; [apply ComponentInfos_nth; exact H|].
  set (edges := controller.OriginalGraph_Edges (loader c)) in *.
  assert (ReferencedBy (newFromNode com edges) =
          map (fun e => dag.NodeID (dag.From e))
              (filter (fun e => String.eqb (dag.NodeID (dag.To e)) (controller.NodeID com))
                      edges)) as HB.
  { rewrite newFromNode_ReferencedBy. f_equal. apply filter_ext_in.
    intros e He.
    destruct (String.eqb_spec (dag.NodeID (dag.To e)) (controller.NodeID com)) as [Ht|Ht];
      [|apply andb_false_r].
    destruct (String.eqb_spec (dag.NodeID (dag.From e)) (controller.NodeID com)) as [Hf|Hf];
      [|reflexivity].
    exfalso. apply (Hirr e He). congruence. }
  split; [apply newFromNode_fields|].
  split; [apply newFromNode_References|].
  split; [exact HB|]. split.
  - intros b. rewrite newFromNode_References, in_map_iff. split.
    + intros (e & <- & He). apply filter_In in He as [He Hf].
      apply String.eqb_eq in Hf. exists e. auto.
    + intros (e & He & Hf & <-). exists e. split; [reflexivity|].
      apply filter_In. split; [exact He|]. apply String.eqb_eq. exact Hf.
  - intros a. rewrite HB, in_map_iff. split.
    + intros (e & <- & He). apply filter_In in He as [He Ht].
      apply String.eqb_eq in Ht. exists e. auto.
    + intros (e & He & <- & Ht). exists e. split; [reflexivity|].
      apply filter_In. split; [exact He|]. apply String.eqb_eq. exact Ht.
Qed.

End Properties.

(** * The controller on concrete configurations *)

Lemma demo_after_reachable (ls : list (@label demo.Logging demo.Controller))
    (s : @Sys demo.Logging demo.Controller) :
  execs demo.started ls = Some s -> reachable demo.options s.
Proof. intros H. exists demo.started, ls. split; [reflexivity | exact H]. Qed.

(** A first load with an error in its diagnostics: rejected, nothing sent. *)
Lemma LoadFile_first_load_policy_witness :
  reachable demo.options demo.started /\
  reachesApply (flow demo.started) demo.badFile [demo.anError] /\
  exists s' r,
    exec demo.started (CallLoadFile demo.badFile) = Some s' /\
    LoadFile (flow demo.started) demo.badFile = Ok (flow s', r) /\
    r = Some (diagError [demo.anError]) /\
    loadedOnce (flow s') = false /\
    Chan.pending (loadFinished (flow s')) = false /\
    exec s' LoopLoadFinished = None.
Proof.
  assert (reachable demo.options demo.started) as Hreach.
  { apply (demo_after_reachable []). vm_compute. reflexivity. }
  assert (reachesApply (flow demo.started) demo.badFile [demo.anError]) as Happ.
  { unfold reachesApply. do 4 eexists. repeat split; reflexivity. }
  split; [exact Hreach|]. split; [exact Happ|].
  destruct (LoadFile_first_load_policy demo.options demo.started demo.badFile
              [demo.anError] Hreach Happ)
    as (s' & r & Hx & HL & Hrej & _ & _ & _).
  exists s', r.
  destruct Hrej as (Hr & Ho & _ & Hp & Hn & _);
    [vm_compute; reflexivity | vm_compute; reflexivity |].
  repeat split; assumption.
Defined.

(** A load after an accepted one whose logging section the logger refuses:
    the flag is set, the load-finished channel is empty, and LoadFile
    returns the logger's error without sending anything. *)
Lemma LoadFile_later_load_logger_failure_sends_nothing :
  let s' := demo.after [CallLoadFile demo.goodFile; LoopLoadFinished;
                        CallLoadFile demo.badLoggingFile] in
  reachable demo.options demo.running /\
  loadedOnce (flow demo.running) = true /\
  Chan.pending (loadFinished (flow demo.running)) = false /\
  LoadFile (flow demo.running) demo.badLoggingFile
    = Ok (flow s', Some (wrapError "error updating logger: " demo.unrecognized)) /\
  Chan.pending (loadFinished (flow s')) <> true /\
  exec demo.running (CallLoadFile demo.badLoggingFile) = Some s' /\
  exec s' LoopLoadFinished = None.
Proof.
  split.
  { apply (demo_after_reachable [CallLoadFile demo.goodFile; LoopLoadFinished]).
    vm_compute. reflexivity. }
  split; [vm_compute; reflexivity|]. split; [vm_compute; reflexivity|].
  split; [vm_compute; reflexivity|]. split; [vm_compute; discriminate|].
  split; vm_compute; reflexivity.
Qed.

(** After an accepted load, a load with errors is accepted too: the
    notification is pending and the diagnostics are returned. *)
Example LoadFile_failed_reload_is_accepted :
  let s' := demo.after [CallLoadFile demo.goodFile; LoopLoadFinished;
                        CallLoadFile demo.badFile] in
  LoadFile (flow demo.running) demo.badFile
    = Ok (flow s', Some (diagError [demo.anError])) /\
  loadedOnce (flow s') = true /\ Chan.pending (loadFinished (flow s')) = true.
Proof. vm_compute. repeat split. Qed.

(** A first load whose only diagnostic is a warning is accepted: the flag
    is set and the load-finished notification is sent, and the warning is
    returned to the caller all the same. *)
Lemma LoadFile_first_load_accepts_warnings :
  loadedOnce (flow demo.started) = false /\
  reachesApply (flow demo.started) demo.warnFile [demo.aWarning] /\
  [demo.aWarning] <> [] /\
  LoadFile (flow demo.started) demo.warnFile
    = Ok (flow (demo.after [CallLoadFile demo.warnFile]),
          Some (diagError [demo.aWarning])) /\
  loadedOnce (flow (demo.after [CallLoadFile demo.warnFile])) <> false /\
  Chan.pending (loadFinished (flow (demo.after [CallLoadFile demo.warnFile]))) = true.
Proof.
  split; [vm_compute; reflexivity|]. split.
  - unfold reachesApply. do 4 eexists. repeat split; reflexivity.
  - split; [discriminate|]. split; [vm_compute; reflexivity|].
    split; [vm_compute; discriminate | vm_compute; reflexivity].
Qed.

Lemma LoadFile_rejects_first_load_on_errors_only_witness :
  reachesApply (flow demo.started) demo.warnFile [demo.aWarning] /\
  exists c' r,
    LoadFile (flow demo.started) demo.warnFile = Ok (c', r) /\
    r = ErrorOrNil [demo.aWarning] /\ loadedOnce c' = true /\
    loadFinished c' = Chan.try_send (loadFinished (flow demo.started)).
Proof.
  assert (reachesApply (flow demo.started) demo.warnFile [demo.aWarning]) as Happ.
  { unfold reachesApply. do 4 eexists. repeat split; reflexivity. }
  split; [exact Happ|].
  destruct (LoadFile_rejects_first_load_on_errors_only
              (flow demo.started) demo.warnFile [demo.aWarning] Happ)
    as (c' & r & HL & _ & Hwarn & _).
  exists c', r. split; [exact HL|]. apply Hwarn; vm_compute; reflexivity.
Defined.

Lemma run_drains_update_queue_witness :
  reachable demo.options demo.notified /\
  exec demo.notified LoopChan = Some demo.draining /\
  loop demo.draining = LoopDrain /\
  drain 3 (flow demo.draining) = Some (Ok ([demo.pods; demo.scrape], demo.drained)) /\
  controller.TryDequeue (updateQueue demo.drained) = (None, updateQueue demo.drained) /\
  execs demo.draining (repeat LoopTryDequeue 3) =
    Some (mkSys demo.drained LoopSelect (closer demo.draining) false
                (trace demo.draining
                 ++ map EvEvaluate [demo.pods; demo.scrape])).
Proof.
  assert (reachable demo.options demo.notified) as Hreach.
  { apply (demo_after_reachable
             [CallLoadFile demo.goodFile; LoopLoadFinished;
              WorkerExportsChange demo.pods]).
    vm_compute. reflexivity. }
  assert (exec demo.notified LoopChan = Some demo.draining) as Hx
    by (vm_compute; reflexivity).
  assert (drain 3 (flow demo.draining)
          = Some (Ok ([demo.pods; demo.scrape], demo.drained))) as Hd
    by (vm_compute; reflexivity).
  split; [exact Hreach|]. split; [exact Hx|].
  destruct (run_drains_update_queue demo.options demo.notified demo.draining
              Hreach Hx) as (Hl & _ & Hdrain & _).
  split; [exact Hl|]. split; [exact Hd|].
  destruct (Hdrain 3 [demo.pods; demo.scrape] demo.drained Hd) as (He & _ & Hs).
  split; [exact He | exact Hs].
Defined.

Lemma OnExportsChange_only_enqueues_witness :
  reachable demo.options demo.running /\
  exists s',
    exec demo.running (WorkerExportsChange demo.pods) = Some s' /\
    controller.queued (updateQueue (flow s')) = [demo.pods] /\
    loader (flow s') = loader (flow demo.running) /\
    sched (flow s') = sched (flow demo.running) /\
    loop s' = loop demo.running /\ trace s' = trace demo.running.
Proof.
  assert (reachable demo.options demo.running) as Hreach.
  { apply (demo_after_reachable [CallLoadFile demo.goodFile; LoopLoadFinished]).
    vm_compute. reflexivity. }
  split; [exact Hreach|].
  destruct (OnExportsChange_only_enqueues demo.options demo.running demo.pods Hreach)
    as (_ & s' & Hx & Hf & _ & Hld & Hsc & Hl & _ & Ht).
  exists s'. repeat split; try assumption.
  rewrite Hf. vm_compute. reflexivity.
Defined.

Lemma Close_waits_for_loop_exit_witness :
  reachable demo.options demo.stopping /\
  loop demo.stopping = LoopExited /\
  exists s',
    exec demo.stopping CloseResume = Some s' /\
    trace s' = trace demo.stopping ++ [EvSchedulerClose] /\
    closer s' = CloseReturned None.
Proof.
  assert (reachable demo.options demo.stopping) as Hreach.
  { apply (demo_after_reachable
             [CallLoadFile demo.goodFile; LoopLoadFinished; CallClose; LoopDone]).
    vm_compute. reflexivity. }
  split; [exact Hreach|].
  destruct (Close_waits_for_loop_exit demo.options demo.stopping Hreach)
    as (_ & _ & _ & _ & Hret & Hgo & _ & _ & _).
  assert (loop demo.stopping = LoopExited) as Hl by (vm_compute; reflexivity).
  split; [exact Hl|].
  destruct (Hgo Hl) as (s' & Hx & Hc & _ & Ht & _); [vm_compute; reflexivity|].
  exists s'. split; [exact Hx|]. split; [exact Ht | exact Hc].
Defined.

(** While the loop runs, Close cannot get past its receive. *)
Example Close_blocks_while_loop_runs :
  execs demo.running [CallClose; CloseResume] = None /\
  execs demo.draining [CallClose; LoopDone] = None.
Proof. split; vm_compute; reflexivity. Qed.

Lemma loadFinished_send_never_blocks_witness :
  reachable demo.options demo.loaded /\
  Chan.pending (loadFinished (flow demo.loaded)) = true /\
  exists c' r,
    LoadFile (flow demo.loaded) demo.goodFile = Ok (c', r) /\
    Chan.send (loadFinished (flow demo.loaded)) = None /\
    loadFinished c' = loadFinished (flow demo.loaded) /\
    Chan.len (loadFinished c') <= 1.
Proof.
  assert (reachable demo.options demo.loaded) as Hreach.
  { apply (demo_after_reachable [CallLoadFile demo.goodFile]).
    vm_compute. reflexivity. }
  split; [exact Hreach|]. split; [vm_compute; reflexivity|].
  destruct (loadFinished_send_never_blocks demo.options demo.loaded demo.goodFile
              Hreach) as (_ & _ & _ & c' & r & HL & Hlen & Hp).
  exists c', r. destruct Hp as [Hs Hsame]; [vm_compute; reflexivity|].
  repeat split; assumption.
Defined.

Lemma ComponentInfos_fields_witness :
  nth_error (controller.Components (loader (flow demo.loaded))) 0 = Some demo.pods /\
  exists info,
    nth_error (ComponentInfos (flow demo.loaded)) 0 = Some info /\
    ID info = "discovery.kubernetes.pods" /\
    Name info = "discovery.kubernetes" /\
    Type_ info = "block" /\
    Label info = "pods" /\
    Health info = Some (mkComponentHealth "healthy" "started component" 7) /\
    Arguments info = [] /\ Exports info = [].
Proof.
  assert (nth_error (controller.Components (loader (flow demo.loaded))) 0
          = Some demo.pods) as Hn by (vm_compute; reflexivity).
  split; [exact Hn|].
  destruct (ComponentInfos_fields (flow demo.loaded) 0 demo.pods Hn)
    as (_ & info & Hi & Hid & Hname & Hty & Hlab & _ & _ & Hh & Ha & He & _).
  exists info. repeat split; assumption.
Defined.

(** The loaded pods component has arguments and exports; its info has
    neither, and loading the same configuration with other arguments and
    exports for the pods gives the same infos: nothing that reads an info
    can tell a component's arguments or exports. *)
Lemma ComponentInfos_omit_arguments_and_exports :
  controller.Components (loader (flow demo.loaded)) = [demo.pods; demo.scrape] /\
  controller.Arguments demo.pods = "role=pod" /\
  controller.Exports demo.pods = "targets=[10.0.0.1]" /\
  (forall info, In info (ComponentInfos (flow demo.loaded)) ->
                Arguments info = [] /\ Exports info = []) /\
  controller.Components (loader (flow demo.otherLoaded))
    = [demo.otherPods; demo.scrape] /\
  ComponentInfos (flow demo.otherLoaded) = ComponentInfos (flow demo.loaded) /\
  ~ (exists argumentsOf exportsOf : ComponentInfo -> component.Value,
       forall (c : @Flow demo.Logging demo.Controller) i com info,
         nth_error (controller.Components (loader c)) i = Some com ->
         nth_error (ComponentInfos c) i = Some info ->
         argumentsOf info = controller.Arguments com /\
         exportsOf info = controller.Exports com).
Proof.
  assert (ComponentInfos (flow demo.otherLoaded) = ComponentInfos (flow demo.loaded))
    as Hsame by (vm_compute; reflexivity).
  split; [vm_compute; reflexivity|]. split; [reflexivity|]. split; [reflexivity|].
  split.
  { intros info Hin. vm_compute in Hin.
    destruct Hin as [<-|[<-|[]]]; split; reflexivity. }
  split; [vm_compute; reflexivity|]. split; [exact Hsame|].
  intros (argumentsOf & exportsOf & H).
  destruct (nth_error (ComponentInfos (flow demo.loaded)) 0) as [info|] eqn:E;
    [|vm_compute in E; discriminate E].
  assert (nth_error (controller.Components (loader (flow demo.loaded))) 0
          = Some demo.pods) as H1 by (vm_compute; reflexivity).
  assert (nth_error (controller.Components (loader (flow demo.otherLoaded))) 0
          = Some demo.otherPods) as H2 by (vm_compute; reflexivity).
  destruct (H _ _ _ _ H1 E) as [Ha _].
  rewrite <- Hsame in E.
  destruct (H _ _ _ _ H2 E) as [Hb _].
  rewrite Ha in Hb. discriminate Hb.
Qed.

Lemma ComponentInfos_references_follow_edges_witness :
  (forall e, In e (controller.OriginalGraph_Edges (loader (flow demo.loaded))) ->
             dag.NodeID (dag.From e) <> dag.NodeID (dag.To e)) /\
  nth_error (controller.Components (loader (flow demo.loaded))) 1 = Some demo.scrape /\
  exists info,
    nth_error (ComponentInfos (flow demo.loaded)) 1 = Some info /\
    ID info = "prometheus.scrape.app" /\
    References info = ["discovery.kubernetes.pods"] /\
    ReferencedBy info = [].
Proof.
  assert (forall e,
            In e (controller.OriginalGraph_Edges (loader (flow demo.loaded))) ->
            dag.NodeID (dag.From e) <> dag.NodeID (dag.To e)) as Hirr.
  { intros e He. vm_compute in He. destruct He as [<-|[]]. discriminate. }
  assert (nth_error (controller.Components (loader (flow demo.loaded))) 1
          = Some demo.scrape) as Hn by (vm_compute; reflexivity).
  split; [exact Hirr|]. split; [exact Hn|].
  destruct (ComponentInfos_references_follow_edges (flow demo.loaded) 1 demo.scrape
              Hirr Hn) as (info & Hi & Hid & Hr & Hb & _ & _).
  exists info. split; [exact Hi|]. split; [exact Hid|].
  split; [rewrite Hr | rewrite Hb]; vm_compute; reflexivity.
Defined.

(** A self-reference, which no loaded graph has, would be listed among the
    references only. *)
Example newFromNode_self_edge :
  let self := dag.mkNode "prometheus.scrape.app" in
  References (newFromNode demo.scrape [dag.mkEdge self self]) = ["prometheus.scrape.app"] /\
  ReferencedBy (newFromNode demo.scrape [dag.mkEdge self self]) = [].
Proof. split; vm_compute; reflexivity. Qed.

Lemma LoadFile_logger_failure_leaves_controller_witness :
  log (flow demo.loaded) = Some (io.Discard, demo.logfmt) /\
  @logging.Update demo.Logging (io.Discard, demo.logfmt) (Logging demo.badLoggingFile)
    = ((io.Discard, demo.logfmt), Some demo.unrecognized) /\
  exists c',
    LoadFile (flow demo.loaded) demo.badLoggingFile
      = Ok (c', Some (wrapError "error updating logger: " demo.unrecognized)) /\
    loader c' = loader (flow demo.loaded) /\
    loadedOnce c' = true /\
    loadFinished c' = loadFinished (flow demo.loaded).
Proof.
  assert (log (flow demo.loaded) = Some (io.Discard, demo.logfmt)) as Hlog
    by (vm_compute; reflexivity).
  assert (@logging.Update demo.Logging (io.Discard, demo.logfmt) (Logging demo.badLoggingFile)
          = ((io.Discard, demo.logfmt), Some demo.unrecognized)) as HU
    by (vm_compute; reflexivity).
  split; [exact Hlog|]. split; [exact HU|].
  destruct (LoadFile_logger_failure_leaves_controller
              (flow demo.loaded) demo.badLoggingFile _ _ _ Hlog HU)
    as (c' & HL & Hld & _ & _ & Ho & Hlf & _).
  exists c'. split; [exact HL|]. split; [exact Hld|].
  split; [rewrite Ho; vm_compute; reflexivity | exact Hlf].
Defined.

Lemma New_with_nil_logger_witness :
  Logger demo.options = None /\
  @logging.New demo.Logging io.Discard (@logging.DefaultOptions demo.Logging) = inl (io.Discard, demo.logfmt) /\
  exists s0,
    New demo.options = Ok s0 /\
    log (flow s0) = Some (io.Discard, demo.logfmt) /\
    loop s0 = LoopSelect.
Proof.
  assert (Logger demo.options = None) as Hnil by reflexivity.
  assert (@logging.New demo.Logging io.Discard (@logging.DefaultOptions demo.Logging)
          = inl (io.Discard, demo.logfmt)) as Hnew by reflexivity.
  split; [exact Hnil|]. split; [exact Hnew|].
  destruct (New_with_nil_logger demo.options (io.Discard, demo.logfmt) Hnil Hnew)
    as (s0 & HN & Hl & _ & Hloop & _).
  exists s0. repeat split; assumption.
Defined.

(** * More of the controller *)

Section Scheduling.

Context {L : logging.Package} {C : controller.Package}.

Ltac some_eq :=
  match goal with
  | H : Some _ = Some _ |- _ => injection H as <-
  | H : None = Some _ |- _ => discriminate H
  end.

(** The loop that copies the components into the runnables copies all of
    them, in order. *)
Lemma runnables_are_components (cs acc : list controller.ComponentNode) :
  fold_left (fun rs uc => rs ++ [uc]) cs acc = acc ++ cs.
Proof.
  revert acc. induction cs as [|c cs IH]; intros acc; simpl.
  - rewrite app_nil_r. reflexivity.
  - rewrite IH, <- app_assoc. reflexivity.
Qed.

(** The load-finished case of the loop, in a state of a running
    controller. *)
Lemma exec_LoopLoadFinished (s : Sys) :
  invariant s -> loop s = LoopSelect ->
  Chan.pending (loadFinished (flow s)) = true ->
  exists ch,
    Chan.recv (loadFinished (flow s)) = Some ch /\ Chan.len ch = 0 /\
    Chan.closed ch = false /\
    exec s LoopLoadFinished =
      Some (mkSys (withSched (withLoadFinished (flow s) ch)
                     (fst (controller.Synchronize (sched (flow s))
                             (controller.Components (loader (flow s))))))
                  LoopSelect (closer s) false
                  (trace s ++ [EvSynchronize (controller.Components (loader (flow s)))])).
Proof.
  intros I Hl Hp. destruct (inv_wf s I) as (Hcap & Hlen & Hcl & _).
  apply pending_len in Hp.
  destruct (Chan.len (loadFinished (flow s))) as [|n] eqn:En; [lia|].
  exists (Chan.mk (Chan.cap (loadFinished (flow s))) n
                  (Chan.closed (loadFinished (flow s)))).
  assert (Chan.recv (loadFinished (flow s)) =
          Some (Chan.mk (Chan.cap (loadFinished (flow s))) n
                        (Chan.closed (loadFinished (flow s))))) as Hr.
  { unfold Chan.recv. rewrite En. reflexivity. }
  split; [exact Hr|]. simpl. split; [lia|]. split; [exact Hcl|].
  unfold exec, run_loadFinished. rewrite (inv_running s I), Hl, Hr. simpl.
  destruct (log (flow s)) eqn:El; [|exfalso; exact (inv_log s I El)].
  rewrite runnables_are_components. simpl.
  destruct (controller.Synchronize (sched (flow s))
              (controller.Components (loader (flow s)))) as [sc err].
  reflexivity.
Qed.

(** X1. When the loop takes a pending load-finished notification, it hands
    Synchronize exactly the loader's current components, in order, and
    keeps the scheduler Synchronize returns.  Whatever error Synchronize
    returns, the loop is back at its select, nothing has panicked, the
    loader is untouched and the notification is consumed. *)
Theorem run_synchronizes_loaded_components (o : Options) (s : Sys) :
  reachable o s ->
  loop s = LoopSelect ->
  Chan.pending (loadFinished (flow s)) = true ->
  exists s',
    exec s LoopLoadFinished = Some s' /\
    trace s' = trace s ++ [EvSynchronize (controller.Components (loader (flow s)))] /\
    sched (flow s') =
      fst (controller.Synchronize (sched (flow s))
             (controller.Components (loader (flow s)))) /\
    loader (flow s') = loader (flow s) /\
    loop s' = LoopSelect /\ crashed s' = false /\
    Chan.pending (loadFinished (flow s')) = false.
Proof.
  intros Hreach Hl Hp. pose proof (reachable_invariant _ _ Hreach) as I.
  destruct (exec_LoopLoadFinished s I Hl Hp) as (ch & _ & Hlen & _ & Hx).
  eexists. split; [exact Hx|]. simpl. repeat split.
  unfold Chan.pending. rewrite Hlen. reflexivity.
Qed.

(** LoadFile calls leave the history, the loop and the caller of Close
    where they are. *)
Lemma execs_LoadFiles (files : list File) (s s1 : Sys) :
  invariant s ->
  execs s (map CallLoadFile files) = Some s1 ->
  invariant s1 /\ trace s1 = trace s /\ loop s1 = loop s /\ closer s1 = closer s.
Proof.
  revert s. induction files as [|file files IH]; simpl; intros s I H.
  - some_eq. split; [exact I|]. auto.
  - destruct (exec s (CallLoadFile file)) as [s0|] eqn:E; [|discriminate].
    destruct (exec_CallLoadFile s s0 file I E) as (r & _ & Hl & Hc & _ & Ht).
    destruct (IH s0 (exec_invariant _ _ _ I E) H) as (I1 & Ht1 & Hl1 & Hc1).
    split; [exact I1|]. repeat split; congruence.
Qed.

(** X2. Load-finished notifications coalesce.  After any number of
    LoadFile calls made while the loop sits at its select, the loop's next
    load-finished turn calls Synchronize once, with the components of the
    loader as the last call left it, and then finds nothing more to
    receive. *)
Theorem load_notifications_coalesce
    (o : Options) (s s1 s2 : Sys) (files : list File) :
  reachable o s ->
  loop s = LoopSelect ->
  execs s (map CallLoadFile files) = Some s1 ->
  exec s1 LoopLoadFinished = Some s2 ->
  trace s2 = trace s ++ [EvSynchronize (controller.Components (loader (flow s1)))] /\
  exec s2 LoopLoadFinished = None.
Proof.
  intros Hreach Hl H1 H2. pose proof (reachable_invariant _ _ Hreach) as I.
  destruct (execs_LoadFiles files s s1 I H1) as (I1 & Ht & Hl1 & _).
  rewrite Hl in Hl1.
  assert (Chan.pending (loadFinished (flow s1)) = true) as Hp.
  { destruct (Chan.pending (loadFinished (flow s1))) eqn:Ep; [reflexivity|].
    exfalso. unfold Chan.pending in Ep. apply Nat.ltb_ge in Ep.
    destruct (inv_wf s1 I1) as (_ & _ & Hcl & _).
    unfold exec, run_loadFinished, Chan.recv in H2.
    rewrite (inv_running s1 I1), Hl1 in H2.
    destruct (Chan.len (loadFinished (flow s1))); [|lia].
    rewrite Hcl in H2. discriminate. }
  destruct (exec_LoopLoadFinished s1 I1 Hl1 Hp) as (ch & _ & Hlen & Hcl & Hx).
  rewrite Hx in H2. some_eq. simpl. split; [rewrite Ht; reflexivity|].
  unfold exec, run_loadFinished, Chan.recv. simpl. rewrite Hlen, Hcl.
  reflexivity.
Qed.

(** Once the loop has returned, an action leaves it returned and adds at
    most a close of the Scheduler to the history. *)
Lemma exec_after_exit (s s' : Sys) (l : label) :
  loop s = LoopExited -> exec s l = Some s' ->
  loop s' = LoopExited /\
  (trace s' = trace s \/ trace s' = trace s ++ [EvSchedulerClose]).
Proof.
  intros Hl H. pose proof (exec_running _ _ _ H) as Hrun.
  unfold exec in H. rewrite Hrun, ?Hl in H. destruct l; try discriminate.
  - destruct (LoadFile (flow s) file) as [[c r]|v]; some_eq; simpl; auto.
  - some_eq. simpl. auto.
  - destruct (closer s); try discriminate. some_eq. simpl. auto.
  - destruct (closer s); try discriminate.
    destruct (Close_return (flow s)) as [[c err]|]; [|discriminate].
    some_eq. simpl. auto.
Qed.

(** X3. The exit of the loop is final.  From a state in which the loop has
    returned, no schedule brings it back, and whatever is called
    afterwards, LoadFile included, the history gains no evaluation and no
    Synchronize: the only event that can still be added is the close of
    the Scheduler. *)
Theorem loop_exit_is_final (s s' : Sys) (ls : list label) :
  loop s = LoopExited ->
  execs s ls = Some s' ->
  loop s' = LoopExited /\
  exists n, trace s' = trace s ++ repeat EvSchedulerClose n.
Proof.
  revert s. induction ls as [|l ls IH]; simpl; intros s Hl H.
  - some_eq. split; [exact Hl|]. exists 0. simpl. rewrite app_nil_r. reflexivity.
  - destruct (exec s l) as [s1|] eqn:E; [|discriminate].
    destruct (exec_after_exit _ _ _ Hl E) as [Hl1 Ht1].
    destruct (IH s1 Hl1 H) as (Hl' & n & Hn). split; [exact Hl'|].
    destruct Ht1 as [Ht1|Ht1]; rewrite Ht1 in Hn.
    + exists n. exact Hn.
    + exists (S n). rewrite <- app_assoc in Hn. exact Hn.
Qed.

(** An action never takes the cancellation back, and the call of Close is
    the action that cancels. *)
Lemma exec_ctxDone (s s' : Sys) (l : label) :
  exec s l = Some s' ->
  (closer s <> CloseNotCalled -> ctxDone (flow s) = true) ->
  closer s' <> CloseNotCalled -> ctxDone (flow s') = true.
Proof.
  intros H J. pose proof (exec_running _ _ _ H) as Hrun.
  unfold exec in H. rewrite Hrun in H. destruct l.
  - destruct (LoadFile (flow s) file) as [[c r]|v] eqn:E; some_eq; simpl; auto.
    apply LoadFile_frame in E as (_ & _ & _ & _ & Hd & _). rewrite Hd. exact J.
  - some_eq. exact J.
  - destruct (closer s); try discriminate. some_eq. reflexivity.
  - unfold Close_return in H. destruct (closer s) eqn:Ec; try discriminate.
    destruct (Chan.recv (exited (flow s))); [|discriminate].
    destruct (controller.Close (sched (flow s))). some_eq. simpl.
    intros _. apply J. discriminate.
  - unfold run_Done in H. destruct (loop s); try discriminate.
    destruct (ctxDone (flow s)) eqn:Ed; [|discriminate].
    destruct (log (flow s)); some_eq; simpl; auto.
  - unfold run_Chan in H. destruct (loop s); try discriminate.
    destruct (Chan.recv _); [|discriminate]. some_eq. exact J.
  - unfold run_TryDequeue in H. destruct (loop s); try discriminate.
    destruct (controller.TryDequeue (updateQueue (flow s))) as [[updated|] q];
      simpl in H.
    + destruct (log (flow s)); [|some_eq; exact J].
      destruct (controller.EvaluateDependencies _ _). some_eq. exact J.
    + some_eq. exact J.
  - unfold run_loadFinished in H. destruct (loop s); try discriminate.
    destruct (Chan.recv (loadFinished (flow s))); [|discriminate]. simpl in H.
    destruct (log (flow s)); [|some_eq; exact J].
    destruct (controller.Synchronize _ _). some_eq. exact J.
Qed.

(** X4. A cancellation is never lost.  In every state after Close was
    called the context is done, whatever ran in between; so whenever the
    loop is at its select from then on, it can take the done case, and
    taking it closes [exited]. *)
Theorem cancellation_is_never_lost (o : Options) (s : Sys) :
  reachable o s ->
  closer s <> CloseNotCalled ->
  ctxDone (flow s) = true /\
  (loop s = LoopSelect ->
   exists s', exec s LoopDone = Some s' /\ loop s' = LoopExited /\
              Chan.closed (exited (flow s')) = true).
Proof.
  intros Hreach Hc. pose proof (reachable_invariant _ _ Hreach) as I.
  assert (ctxDone (flow s) = true) as Hd.
  { destruct Hreach as (s0 & ls & H0 & Hs).
    assert (closer s0 <> CloseNotCalled -> ctxDone (flow s0) = true) as J0.
    { unfold New in H0. destruct (newFlow o); [|discriminate].
      injection H0 as <-. simpl. congruence. }
    clear H0 I. revert s0 J0 Hs.
    induction ls as [|l ls IH]; simpl; intros s0 J0 Hs.
    - some_eq. exact (J0 Hc).
    - destruct (exec s0 l) as [s1|] eqn:E; [|discriminate].
      exact (IH s1 (exec_ctxDone _ _ _ E J0) Hs). }
  split; [exact Hd|]. intros Hl.
  unfold exec, run_Done. rewrite (inv_running s I), Hl, Hd.
  destruct (log (flow s)) eqn:El; [|exfalso; exact (inv_log s I El)].
  eexists. split; [reflexivity|]. simpl. auto.
Qed.

(** Once Close was called, the context stays done. *)
Lemma reachable_cancelled (o : Options) (s : Sys) :
  reachable o s -> closer s <> CloseNotCalled -> ctxDone (flow s) = true.
Proof.
  intros (s0 & ls & H0 & Hs) Hc.
  assert (closer s0 <> CloseNotCalled -> ctxDone (flow s0) = true) as J0.
  { unfold New in H0. destruct (newFlow o); [|discriminate].
    injection H0 as <-. simpl. congruence. }
  clear H0. revert s0 J0 Hs.
  induction ls as [|l ls IH]; simpl; intros s0 J0 Hs.
  - some_eq. exact (J0 Hc).
  - destruct (exec s0 l) as [s1|] eqn:E; [|discriminate].
    exact (IH s1 (exec_ctxDone _ _ _ E J0) Hs).
Qed.

(** X5. A waiting Close is never stuck.  In every state in which Close was
    called and has not returned, the action the controller is waiting for
    can be taken: at its select the loop can take the done case and
    return; inside its inner loop it can take the next turn, which keeps
    it there or brings it back to the select; and once the loop has
    returned, Close itself goes on and returns what Scheduler.Close
    returns for the scheduler of that state.  None of these steps takes
    the call of Close back. *)
Theorem waiting_Close_is_never_stuck (o : Options) (s : Sys) :
  reachable o s ->
  closer s = CloseWaiting ->
  (loop s = LoopSelect /\
   exists s', exec s LoopDone = Some s' /\ loop s' = LoopExited /\
              closer s' = CloseWaiting /\
              trace s' = trace s ++ [EvLoopExited]) \/
  (loop s = LoopDrain /\
   exec s LoopDone = None /\ exec s CloseResume = None /\
   exists s', exec s LoopTryDequeue = Some s' /\ closer s' = CloseWaiting /\
              ((loop s' = LoopSelect /\
                controller.queued (updateQueue (flow s)) = [] /\
                trace s' = trace s) \/
               (loop s' = LoopDrain /\
                exists updated rest,
                  controller.queued (updateQueue (flow s)) = updated :: rest /\
                  trace s' = trace s ++ [EvEvaluate updated]))) \/
  (loop s = LoopExited /\
   exists s', exec s CloseResume = Some s' /\
              closer s' = CloseReturned (snd (controller.Close (sched (flow s)))) /\
              sched (flow s') = fst (controller.Close (sched (flow s))) /\
              trace s' = trace s ++ [EvSchedulerClose]).
Proof.
  intros Hreach Hc. pose proof (reachable_invariant _ _ Hreach) as I.
  destruct (inv_wf s I) as (_ & _ & _ & Hex0).
  assert (ctxDone (flow s) = true) as Hd.
  { apply (reachable_cancelled o s Hreach). rewrite Hc. discriminate. }
  destruct (log (flow s)) as [lg|] eqn:El; [|exfalso; exact (inv_log s I El)].
  destruct (loop s) eqn:Hl.
  - left. split; [reflexivity|].
    unfold exec, run_Done. rewrite (inv_running s I), Hl, Hd, El, Hc.
    eexists. split; [reflexivity|]. simpl. auto.
  - right. left. split; [reflexivity|].
    assert (Chan.closed (exited (flow s)) = false) as Hopen.
    { destruct (Chan.closed (exited (flow s))) eqn:E; [|reflexivity].
      apply (inv_exited s I) in E. congruence. }
    split; [|split].
    + unfold exec. rewrite (inv_running s I), Hl. reflexivity.
    + unfold exec, Close_return, Chan.recv.
      rewrite (inv_running s I), Hc, Hex0, Hopen. reflexivity.
    + unfold exec. rewrite (inv_running s I), Hl, Hc.
      destruct (run_TryDequeue (flow s)) as [[[updated c1]|]|v] eqn:E.
      * apply run_TryDequeue_turn in E as (rest & Hq & _ & _).
        eexists. split; [reflexivity|]. simpl. split; [reflexivity|].
        right. split; [reflexivity|]. exists updated, rest. auto.
      * apply run_TryDequeue_break in E.
        eexists. split; [reflexivity|]. simpl. auto.
      * exfalso. unfold run_TryDequeue in E.
        destruct (controller.TryDequeue (updateQueue (flow s))) as [[updated|] q];
          simpl in E; [|discriminate].
        rewrite El in E.
        destruct (controller.EvaluateDependencies _ _). discriminate.
  - right. right. split; [reflexivity|].
    pose proof (proj2 (inv_exited s I) Hl) as Hclosed.
    unfold exec, Close_return, Chan.recv.
    rewrite (inv_running s I), Hc, Hclosed, Hex0. simpl.
    destruct (controller.Close (sched (flow s))) as [sc err].
    eexists. split; [reflexivity|]. simpl. auto.
Qed.

(** An action only adds to the history. *)
Lemma exec_trace_extends (s s' : Sys) (l : label) :
  exec s l = Some s' -> exists t, trace s' = trace s ++ t.
Proof.
  intros H. pose proof (exec_running _ _ _ H) as Hrun.
  assert (trace s = trace s ++ []) as Hnil by (rewrite app_nil_r; reflexivity).
  unfold exec in H. rewrite Hrun in H. destruct l.
  - destruct (LoadFile (flow s) file) as [[c r]|v]; some_eq; exists []; exact Hnil.
  - some_eq. exists []. exact Hnil.
  - destruct (closer s); try discriminate. some_eq. exists []. exact Hnil.
  - destruct (closer s); try discriminate.
    destruct (Close_return (flow s)) as [[c err]|]; [|discriminate].
    some_eq. eexists. reflexivity.
  - destruct (loop s); try discriminate.
    destruct (run_Done (flow s)) as [[c|v]|]; [| |discriminate]; some_eq.
    + eexists. reflexivity.
    + exists []. exact Hnil.
  - destruct (loop s); try discriminate.
    destruct (run_Chan (flow s)); [|discriminate]. some_eq. exists []. exact Hnil.
  - destruct (loop s); try discriminate.
    destruct (run_TryDequeue (flow s)) as [[[updated c]|]|v]; some_eq.
    + eexists. reflexivity.
    + exists []. exact Hnil.
    + exists []. exact Hnil.
  - destruct (loop s); try discriminate.
    destruct (run_loadFinished (flow s)) as [[[rs c]|v]|]; [| |discriminate]; some_eq.
    + eexists. reflexivity.
    + exists []. exact Hnil.
Qed.

Lemma execs_trace_extends (ls : list label) (s s' : Sys) :
  execs s ls = Some s' -> exists t, trace s' = trace s ++ t.
Proof.
  revert s. induction ls as [|l ls IH]; simpl; intros s H.
  - some_eq. exists []. rewrite app_nil_r. reflexivity.
  - destruct (exec s l) as [s1|] eqn:E; [|discriminate].
    destruct (exec_trace_extends _ _ _ E) as [t1 H1].
    destruct (IH _ H) as [t2 H2].
    exists (t1 ++ t2). rewrite H2, H1, app_assoc. reflexivity.
Qed.

(** LoadFile takes nothing out of the queue. *)
Lemma LoadFile_keeps_queued (c c' : Flow) (file : File) (r : option error)
    (n : controller.ComponentNode) :
  callbackEnqueues c ->
  LoadFile c file = Ok (c', r) ->
  In n (controller.queued (updateQueue c)) ->
  In n (controller.queued (updateQueue c')).
Proof.
  intros Hcb H Hin. destruct (log c) as [l|] eqn:El.
  2:{ rewrite LoadFile_nil_logger in H by assumption. discriminate. }
  destruct (logging.Update l (Logging file)) as [l' [err|]] eqn:EU.
  - erewrite LoadFile_logger_error in H by eauto.
    injection H as <- <-. exact Hin.
  - destruct (controller.Apply (loader c) (Components file)) as [[ld diags] changed] eqn:EA.
    destruct (negb (loadedOnce c) && diag.HasErrors diags) eqn:Eg.
    + apply andb_true_iff in Eg as [Ho He]. apply negb_true_iff in Ho.
      erewrite LoadFile_rejects in H by eauto.
      injection H as <- <-. simpl.
      apply (callbacks_keep (withLoader (withLog c (Some l')) ld)); assumption.
    + erewrite LoadFile_accepts in H by eauto.
      injection H as <- <-. simpl.
      apply (callbacks_keep (withLoader (withLog c (Some l')) ld)); assumption.
Qed.

(** While the loop is inside its inner loop with [n] queued, an action
    either leaves it there with [n] still queued, adding to the history at
    most the evaluation of another node, or it is the turn that evaluates
    [n]. *)
Lemma exec_keeps_queued_or_evaluates (s s' : Sys) (l : label)
    (n : controller.ComponentNode) :
  invariant s -> exec s l = Some s' ->
  loop s = LoopDrain ->
  In n (controller.queued (updateQueue (flow s))) ->
  trace s' = trace s ++ [EvEvaluate n] \/
  ((exists t, trace s' = trace s ++ t) /\ loop s' = LoopDrain /\
   In n (controller.queued (updateQueue (flow s')))).
Proof.
  intros I H Hl Hin. pose proof (exec_trace_extends _ _ _ H) as Ht.
  destruct (inv_wf s I) as (_ & _ & _ & Hex0).
  assert (Chan.closed (exited (flow s)) = false) as Hopen.
  { destruct (Chan.closed (exited (flow s))) eqn:E; [|reflexivity].
    apply (inv_exited s I) in E. congruence. }
  unfold exec in H. rewrite (inv_running s I), ?Hl in H. destruct l;
    try discriminate.
  - right. split; [exact Ht|].
    destruct (LoadFile (flow s) file) as [[c r]|v] eqn:E; some_eq; simpl; auto.
    split; [reflexivity|].
    exact (LoadFile_keeps_queued _ _ _ _ _ (inv_callback s I) E Hin).
  - right. split; [exact Ht|]. some_eq. split; [reflexivity|].
    exact (callbacks_keep (flow s) [cn] n (inv_callback s I) Hin).
  - right. split; [exact Ht|].
    destruct (closer s); try discriminate. some_eq. simpl. auto.
  - exfalso. unfold Close_return, Chan.recv in H.
    rewrite Hex0, Hopen in H. destruct (closer s); discriminate.
  - destruct (run_TryDequeue (flow s)) as [[[updated c1]|]|v] eqn:E; some_eq.
    + apply run_TryDequeue_turn in E as (rest & Hq & _ & Hc1).
      rewrite Hq in Hin. destruct Hin as [->|Hin]; [left; reflexivity|].
      right. split; [exact Ht|]. simpl. split; [reflexivity|].
      rewrite Hc1. apply callbacks_keep.
      * exact (inv_callback s I).
      * exact Hin.
    + apply run_TryDequeue_break in E. rewrite E in Hin. destruct Hin.
    + right. split; [exact Ht|]. simpl. auto.
Qed.

(** X6. Nothing cuts the inner loop short.  While a node is queued and the
    loop is inside its inner loop, the loop cannot take the done case and
    can take its next turn; and along every schedule from there,
    whatever is called in between (Close, LoadFile, components changing
    their exports), the loop leaves the inner loop, and so returns, only
    after EvaluateDependencies was called on that node. *)
Theorem queued_nodes_are_evaluated_before_the_loop_leaves
    (o : Options) (s : Sys) (n : controller.ComponentNode) :
  reachable o s ->
  loop s = LoopDrain ->
  In n (controller.queued (updateQueue (flow s))) ->
  exec s LoopDone = None /\
  (exists s1, exec s LoopTryDequeue = Some s1 /\ loop s1 = LoopDrain) /\
  (forall ls s',
     execs s ls = Some s' -> loop s' <> LoopDrain ->
     exists t, trace s' = trace s ++ t /\ In (EvEvaluate n) t).
Proof.
  intros Hreach Hl Hin. pose proof (reachable_invariant _ _ Hreach) as I.
  split; [|split].
  - unfold exec. rewrite (inv_running s I), Hl. reflexivity.
  - unfold exec. rewrite (inv_running s I), Hl.
    destruct (run_TryDequeue (flow s)) as [[[updated c1]|]|v] eqn:E.
    + eexists. split; reflexivity.
    + apply run_TryDequeue_break in E. rewrite E in Hin. destruct Hin.
    + exfalso. unfold run_TryDequeue in E.
      destruct (controller.TryDequeue (updateQueue (flow s))) as [[updated|] q];
        simpl in E; [|discriminate].
      destruct (log (flow s)) eqn:El; [|exact (inv_log s I El)].
      destruct (controller.EvaluateDependencies _ _). discriminate.
  - clear Hreach. intros ls. revert s I Hl Hin.
    induction ls as [|l ls IH]; simpl; intros s I Hl Hin s' H Hout.
    + some_eq. contradiction.
    + destruct (exec s l) as [s1|] eqn:E; [|discriminate].
      destruct (exec_keeps_queued_or_evaluates _ _ _ n I E Hl Hin)
        as [Ht|((t1 & Ht) & Hl1 & Hin1)].
      * destruct (execs_trace_extends _ _ _ H) as [t2 H2].
        exists ([EvEvaluate n] ++ t2). split.
        -- rewrite H2, Ht, <- app_assoc. reflexivity.
        -- left. reflexivity.
      * destruct (IH s1 (exec_invariant _ _ _ I E) Hl1 Hin1 s' H Hout)
          as (t2 & H2 & Hev).
        exists (t1 ++ t2). split.
        -- rewrite H2, Ht, <- app_assoc. reflexivity.
        -- apply in_or_app. right. exact Hev.
Qed.

(** No action assigns to the options or to the globals (the logger they
    point to is reconfigured through [log]). *)
Lemma exec_opts_globals (s s' : Sys) (l : label) :
  exec s l = Some s' ->
  opts (flow s') = opts (flow s) /\ globals (flow s') = globals (flow s).
Proof.
  intros H. pose proof (exec_running _ _ _ H) as Hrun.
  unfold exec in H. rewrite Hrun in H. destruct l.
  - destruct (LoadFile (flow s) file) as [[c r]|v] eqn:E; some_eq; simpl; auto.
    apply LoadFile_frame in E as (_ & Ho & _ & Hg & _). auto.
  - some_eq. auto.
  - destruct (closer s); try discriminate. some_eq. auto.
  - unfold Close_return in H. destruct (closer s); try discriminate.
    destruct (Chan.recv (exited (flow s))); [|discriminate].
    destruct (controller.Close (sched (flow s))). some_eq. auto.
  - unfold run_Done in H. destruct (loop s); try discriminate.
    destruct (ctxDone (flow s)); [|discriminate].
    destruct (log (flow s)); some_eq; auto.
  - unfold run_Chan in H. destruct (loop s); try discriminate.
    destruct (Chan.recv _); [|discriminate]. some_eq. auto.
  - unfold run_TryDequeue in H. destruct (loop s); try discriminate.
    destruct (controller.TryDequeue (updateQueue (flow s))) as [[updated|] q];
      simpl in H.
    + destruct (log (flow s)); [|some_eq; auto].
      destruct (controller.EvaluateDependencies _ _). some_eq. auto.
    + some_eq. auto.
  - unfold run_loadFinished in H. destruct (loop s); try discriminate.
    destruct (Chan.recv (loadFinished (flow s))); [|discriminate]. simpl in H.
    destruct (log (flow s)); [|some_eq; auto].
    destruct (controller.Synchronize _ _). some_eq. auto.
Qed.

(** X7. The data path, the registerer and the listen address are fixed at
    construction.  In every state of a controller made by [New o] the
    stored options and the globals handed to the components hold the data
    path, the registerer and the listen address of [o]: neither LoadFile
    nor the loop nor Close changes them. *)
Theorem data_path_registerer_and_address_are_fixed (o : Options) (s : Sys) :
  reachable o s ->
  DataPath (opts (flow s)) = DataPath o /\
  Reg (opts (flow s)) = Reg o /\
  HTTPListenAddr (opts (flow s)) = HTTPListenAddr o /\
  controller.DataPath (globals (flow s)) = DataPath o /\
  controller.Registerer_of (globals (flow s)) = Reg o /\
  controller.HTTPListenAddr (globals (flow s)) = HTTPListenAddr o.
Proof.
  intros (s0 & ls & H0 & Hs).
  assert (opts (flow s) = opts (flow s0) /\ globals (flow s) = globals (flow s0))
    as [Ho Hg].
  { clear H0. revert s0 Hs. induction ls as [|l ls IH]; simpl; intros s0 Hs.
    - some_eq. auto.
    - destruct (exec s0 l) as [s1|] eqn:E; [|discriminate].
      destruct (exec_opts_globals _ _ _ E) as [Ho1 Hg1].
      destruct (IH s1 Hs) as [Ho Hg]. split; congruence. }
  rewrite Ho, Hg. clear Ho Hg Hs.
  unfold New in H0. destruct (newFlow o) as [c|v] eqn:E; [|discriminate].
  injection H0 as <-. simpl. unfold newFlow in E.
  destruct (Logger o) as [l0|] eqn:El.
  - injection E as <-. simpl. repeat split.
  - destruct (logging.New io.Discard logging.DefaultOptions); [|discriminate].
    injection E as <-. simpl. repeat split.
Qed.

(** X8. New panics in one case only: the options have no logger and the
    logging package fails to build the discarding one; the panic value is
    that error.  A logger given in the options is used as it is, for the
    controller and for the globals, whatever the logging package would
    have built. *)
Theorem New_panics_only_without_logger (o : Options) :
  (forall err,
     New o = Panic err <->
     Logger o = None /\
     logging.New io.Discard logging.DefaultOptions = inr err) /\
  (forall l, Logger o = Some l ->
     exists s0, New o = Ok s0 /\ log (flow s0) = Some l /\
                controller.Logger_of (globals (flow s0)) = l /\
                ctxDone (flow s0) = false /\ loadedOnce (flow s0) = false).
Proof.
  unfold New, newFlow. split.
  - intros err. destruct (Logger o) as [l|].
    + split; [discriminate | intros [? _]; discriminate].
    + destruct (logging.New io.Discard logging.DefaultOptions) as [l|e].
      * split; [discriminate | intros [_ ?]; discriminate].
      * split; [intros [= ->]; auto | intros [_ [= ->]]; reflexivity].
  - intros l ->. eexists. split; [reflexivity|]. simpl. auto.
Qed.

End Scheduling.

(** * More of the component infos *)

(** X9. References and referrers of two different components agree: a is
    listed among the referrers of b exactly when a and b have different
    node ids and b is listed among the references of a.  This holds for
    every list of edges. *)
Theorem references_and_referrers_agree
    (a b : controller.ComponentNode) (edges : list dag.Edge) :
  In (controller.NodeID a) (ReferencedBy (newFromNode b edges)) <->
  controller.NodeID a <> controller.NodeID b /\
  In (controller.NodeID b) (References (newFromNode a edges)).
Proof.
  rewrite newFromNode_ReferencedBy, newFromNode_References, !in_map_iff. split.
  - intros (e & Hf & He). apply filter_In in He as [He Hp].
    apply andb_true_iff in Hp as [Hn Ht].
    apply negb_true_iff, String.eqb_neq in Hn. apply String.eqb_eq in Ht.
    split; [congruence|]. exists e. split; [exact Ht|].
    apply filter_In. split; [exact He|]. apply String.eqb_eq. exact Hf.
  - intros (Hab & e & Ht & He). apply filter_In in He as [He Hf].
    apply String.eqb_eq in Hf. exists e. split; [exact Hf|].
    apply filter_In. split; [exact He|]. apply andb_true_iff. split.
    + apply negb_true_iff, String.eqb_neq. congruence.
    + apply String.eqb_eq. exact Ht.
Qed.

(** X10. A component is never listed among its own referrers, whatever the
    edges; an edge from the component to itself shows among its references
    instead. *)
Theorem component_is_never_its_own_referrer
    (cn : controller.ComponentNode) (edges : list dag.Edge) :
  ~ In (controller.NodeID cn) (ReferencedBy (newFromNode cn edges)) /\
  (forall e, In e edges ->
     dag.NodeID (dag.From e) = controller.NodeID cn ->
     dag.NodeID (dag.To e) = controller.NodeID cn ->
     In (controller.NodeID cn) (References (newFromNode cn edges))).
Proof.
  rewrite newFromNode_ReferencedBy, newFromNode_References. split.
  - intros Hin. apply in_map_iff in Hin as (e & Hf & He).
    apply filter_In in He as [_ Hp]. apply andb_true_iff in Hp as [Hn _].
    apply negb_true_iff, String.eqb_neq in Hn. contradiction.
  - intros e He Hf Ht. apply in_map_iff. exists e. split; [exact Ht|].
    apply filter_In. split; [exact He|]. apply String.eqb_eq. exact Hf.
Qed.

(** X11. Every edge that touches a component is listed exactly once in its
    info: the references and the referrers together are as many as the
    edges that leave or enter the component.  A component that no edge
    touches has neither references nor referrers. *)
Theorem every_incident_edge_is_listed_once
    (cn : controller.ComponentNode) (edges : list dag.Edge) :
  List.length (References (newFromNode cn edges))
  + List.length (ReferencedBy (newFromNode cn edges))
  = List.length
      (filter (fun e => String.eqb (dag.NodeID (dag.From e)) (controller.NodeID cn)
                        || String.eqb (dag.NodeID (dag.To e)) (controller.NodeID cn))
              edges) /\
  ((forall e, In e edges ->
      dag.NodeID (dag.From e) <> controller.NodeID cn /\
      dag.NodeID (dag.To e) <> controller.NodeID cn) ->
   References (newFromNode cn edges) = [] /\
   ReferencedBy (newFromNode cn edges) = []).
Proof.
  rewrite newFromNode_ReferencedBy, newFromNode_References. split.
  - rewrite !length_map. induction edges as [|e edges IH]; simpl; [reflexivity|].
    destruct (String.eqb (dag.NodeID (dag.From e)) (controller.NodeID cn)); simpl.
    + rewrite <- IH. reflexivity.
    + destruct (String.eqb (dag.NodeID (dag.To e)) (controller.NodeID cn)); simpl.
      * rewrite <- IH. lia.
      * exact IH.
  - intros Hnone. induction edges as [|e edges IH]; simpl; [auto|].
    destruct (Hnone e (or_introl eq_refl)) as [Hf Ht].
    apply String.eqb_neq in Hf, Ht. rewrite Hf, Ht. simpl.
    apply IH. intros e' He'. apply Hnone. right. exact He'.
Qed.

Section Listing.

Context {L : logging.Package} {C : controller.Package}.

(** X12. Which components are listed, and what they refer to, changes
    only through LoadFile and through the evaluations of the loop.  An
    exports change by a worker, the loop's receives, Synchronize, the
    loop's exit and Close leave the ids, names, labels, references and
    referrers that ComponentInfos returns as they are.  (The health in an
    info is read from the node at the time of the call and is not part of
    this.) *)
Theorem only_loads_and_evaluations_change_the_listing (s s' : Sys) (l : label) :
  exec s l = Some s' ->
  (forall file, l <> CallLoadFile file) ->
  l <> LoopTryDequeue ->
  map ID (ComponentInfos (flow s')) = map ID (ComponentInfos (flow s)) /\
  map Name (ComponentInfos (flow s')) = map Name (ComponentInfos (flow s)) /\
  map Label (ComponentInfos (flow s')) = map Label (ComponentInfos (flow s)) /\
  map References (ComponentInfos (flow s')) =
    map References (ComponentInfos (flow s)) /\
  map ReferencedBy (ComponentInfos (flow s')) =
    map ReferencedBy (ComponentInfos (flow s)).
Proof.
  intros H Hload Hdeq.
  assert (loader (flow s') = loader (flow s)) as Hld.
  { pose proof (exec_running _ _ _ H) as Hrun.
    unfold exec in H. rewrite Hrun in H. destruct l.
    - exfalso. exact (Hload file eq_refl).
    - injection H as <-. reflexivity.
    - destruct (closer s); try discriminate. injection H as <-. reflexivity.
    - unfold Close_return in H. destruct (closer s); try discriminate.
      destruct (Chan.recv (exited (flow s))); [|discriminate].
      destruct (controller.Close (sched (flow s))). injection H as <-. reflexivity.
    - unfold run_Done in H. destruct (loop s); try discriminate.
      destruct (ctxDone (flow s)); [|discriminate].
      destruct (log (flow s)); injection H as <-; reflexivity.
    - unfold run_Chan in H. destruct (loop s); try discriminate.
      destruct (Chan.recv _); [|discriminate]. injection H as <-. reflexivity.
    - exfalso. exact (Hdeq eq_refl).
    - unfold run_loadFinished in H. destruct (loop s); try discriminate.
      destruct (Chan.recv (loadFinished (flow s))); [|discriminate]. simpl in H.
      destruct (log (flow s)); [|injection H as <-; reflexivity].
      destruct (controller.Synchronize _ _). injection H as <-. reflexivity. }
  unfold ComponentInfos. rewrite Hld. repeat split.
Qed.

(** X13. A controller fresh from New is idle: its loop has no case of the
    select to take, and stays blocked until a LoadFile, an exports change
    or Close gives it one. *)
Theorem New_controller_is_idle (o : Options) (s0 : Sys) :
  New o = Ok s0 ->
  exec s0 LoopDone = None /\ exec s0 LoopChan = None /\
  exec s0 LoopLoadFinished = None /\ exec s0 LoopTryDequeue = None /\
  exec s0 CloseResume = None /\
  controller.queued (updateQueue (flow s0)) = [] /\ trace s0 = [].
Proof.
  unfold New. destruct (newFlow o) as [c|v] eqn:E; [|discriminate].
  intros [= <-].
  apply newFlow_shape in E
    as (l & Hl & _ & Hq & _ & _ & _ & Hd & Hex & Hlf & _ & _).
  unfold exec, run_Done, run_Chan, run_loadFinished. simpl.
  rewrite Hd, Hq, Hlf. simpl. repeat split.
Qed.

End Listing.

(** * The run command *)

Section CommandProperties.

Context {L : logging.Package} {C : controller.Package} {H : Host}.

(** LoadFile returns nil only for a load it accepted, with no diagnostics
    at all. *)
Lemma LoadFile_nil_result (c c' : Flow) (file : File) :
  LoadFile c file = Ok (c', None) ->
  reachesApply c file [] /\ loadedOnce c' = true /\
  loadFinished c' = Chan.try_send (loadFinished c).
Proof.
  intros E. destruct (log c) as [l|] eqn:El.
  2:{ rewrite LoadFile_nil_logger in E by assumption. discriminate. }
  destruct (logging.Update l (Logging file)) as [l' [err|]] eqn:EU.
  - erewrite LoadFile_logger_error in E by eauto. discriminate.
  - destruct (controller.Apply (loader c) (Components file)) as [[ld diags] changed] eqn:EA.
    destruct (negb (loadedOnce c) && diag.HasErrors diags) eqn:Eg.
    + apply andb_true_iff in Eg as [Ho He]. apply negb_true_iff in Ho.
      erewrite LoadFile_rejects in E by eauto. discriminate.
    + erewrite LoadFile_accepts in E by eauto.
      injection E as <- Hnil. destruct diags; [|discriminate].
      simpl. split; [|auto]. exists l, l', ld, changed. auto.
Qed.

(** With diagnostics, LoadFile returns them as its error, whether it
    accepts the load or not. *)
Lemma LoadFile_returns_diagnostics (c : Flow) (file : File)
    (diags : diag.Diagnostics) :
  reachesApply c file diags -> diags <> [] ->
  exists c', LoadFile c file = Ok (c', Some (diagError diags)).
Proof.
  intros (l & l' & ld & changed & Hl & HU & HA) Hne.
  destruct (negb (loadedOnce c) && diag.HasErrors diags) eqn:Eg.
  - apply andb_true_iff in Eg as [Ho He]. apply negb_true_iff in Ho.
    eexists. eapply LoadFile_rejects; eauto.
  - eexists. erewrite LoadFile_accepts by eauto.
    destruct diags; [congruence | reflexivity].
Qed.

(** X14. Run gets to serve only after a first load without any
    diagnostic.  If Run reaches the HTTP server, the file argument was not
    empty, the file was read and parsed, LoadFile got as far as Apply and
    Apply returned no diagnostics; the controller has accepted the load,
    the load-finished notification is pending, and [/-/ready] answers
    200. *)
Theorem Run_serves_only_after_a_clean_load
    (fr : flowRun) (fs : FileSystem) (configFile : string) (srv : Server) :
  Run_start fr fs configFile = Ok (RunServing srv) ->
  configFile <> "" /\
  (exists l f0 file,
     logging.New io.Stderr logging.DefaultOptions = inl l /\
     newFlow (mkOptions (Some l) (storagePath fr) DefaultRegisterer
                        (httpListenAddr fr)) = Ok f0 /\
     loadFlowFile fs configFile = inl file /\
     reachesApply f0 file [] /\
     LoadFile f0 file = Ok (ctl srv, None)) /\
  loadedOnce (ctl srv) = true /\
  Chan.pending (loadFinished (ctl srv)) = true /\
  ready srv = true /\
  StatusCode (readyHandler srv) = 200.
Proof.
  unfold Run_start. intros E.
  destruct (String.eqb_spec configFile "") as [|Hne]; [discriminate|].
  destruct (logging.New io.Stderr logging.DefaultOptions) as [l|e] eqn:En;
    [|discriminate].
  destruct (newFlow _) as [f0|v] eqn:Ef; [|discriminate].
  unfold reload in E.
  destruct (loadFlowFile fs configFile) as [file|e] eqn:Er.
  2:{ simpl in E. destruct (errors_As_Diagnostics e); discriminate. }
  destruct (LoadFile f0 file) as [[f [err|]]|v] eqn:EL; try discriminate.
  { simpl in E. destruct (errors_As_Diagnostics err); discriminate. }
  injection E as <-. simpl.
  destruct (LoadFile_nil_result _ _ _ EL) as (Happ & Ho & Hlf).
  apply newFlow_shape in Ef as Hshape.
  destruct Hshape as (l0 & _ & _ & _ & _ & _ & _ & _ & _ & Hmk & _ & _).
  split; [exact Hne|]. split; [exists l, f0, file; auto|].
  split; [exact Ho|]. split; [|auto].
  rewrite Hlf, Hmk. reflexivity.
Qed.

(** X15. For Run, any diagnostic in the first load is fatal.  When the
    first LoadFile gets as far as Apply and Apply returns a non-empty list
    of diagnostics, of whatever severity, Run returns the error "could not
    perform the initial load successfully" and does not serve, also when
    the controller itself accepted the load. *)
Theorem Run_returns_on_any_diagnostic
    (fr : flowRun) (fs : FileSystem) (configFile : string)
    (l : logging.Logger) (f0 : Flow) (file : File) (diags : diag.Diagnostics) :
  configFile <> "" ->
  logging.New io.Stderr logging.DefaultOptions = inl l ->
  newFlow (mkOptions (Some l) (storagePath fr) DefaultRegisterer
                     (httpListenAddr fr)) = Ok f0 ->
  loadFlowFile fs configFile = inl file ->
  reachesApply f0 file diags ->
  diags <> [] ->
  Run_start fr fs configFile =
    Ok (RunReturned (errorString "could not perform the initial load successfully")).
Proof.
  intros Hne En Ef Er Happ Hd. unfold Run_start, reload.
  apply String.eqb_neq in Hne. rewrite Hne, En, Ef, Er.
  destruct (LoadFile_returns_diagnostics _ _ _ Happ Hd) as (c' & ->).
  reflexivity.
Qed.

(** X16. The two endpoints agree.  Whatever the ready flag was, after a
    request to [/-/reload] the flag is set exactly when the answer was
    200, which is exactly when reload returned nil; the answer is 400
    otherwise, and [/-/ready] then answers 200 or 503 accordingly. *)
Theorem reload_and_ready_agree
    (fs : FileSystem) (configFile : string) (srv srv' : Server) (resp : Response) :
  reloadHandler fs configFile srv = Ok (srv', resp) ->
  (exists err, reload fs configFile (ctl srv) = Ok (ctl srv', err) /\
               (err = None <-> ready srv' = true)) /\
  (StatusCode resp = 200 \/ StatusCode resp = 400) /\
  (StatusCode resp = 200 <-> ready srv' = true) /\
  (StatusCode resp = 200 <-> StatusCode (readyHandler srv') = 200) /\
  (StatusCode resp = 400 <-> StatusCode (readyHandler srv') = 503).
Proof.
  unfold reloadHandler, readyHandler. intros E.
  destruct (reload fs configFile (ctl srv)) as [[f [err|]]|v]; try discriminate;
    injection E as <- <-; simpl.
  - split; [exists (Some err); split; [reflexivity | split; discriminate]|].
    repeat split; auto; discriminate.
  - split; [exists None; split; [reflexivity | split; reflexivity]|].
    repeat split; auto; discriminate.
Qed.

(** X17. A reload that fails on diagnostics is applied all the same.
    After an accepted load, a reload whose Apply returns diagnostics
    answers 400 and clears the ready flag, while the controller has run
    Apply, keeps its flag set and has a load-finished notification
    pending, so the loop will synchronize the scheduler with the new
    components. *)
Theorem failed_reload_is_applied
    (fs : FileSystem) (configFile : string) (srv : Server)
    (file : File) (diags : diag.Diagnostics) :
  wf (ctl srv) ->
  loadedOnce (ctl srv) = true ->
  loadFlowFile fs configFile = inl file ->
  reachesApply (ctl srv) file diags ->
  diags <> [] ->
  exists srv',
    reloadHandler fs configFile srv =
      Ok (srv', mkResponse 400
                  (String.append
                     (String.append "error during the initial gragent load: "
                        (Diagnostics_Error diags))
                     newline)) /\
    ready srv' = false /\
    loadedOnce (ctl srv') = true /\
    Chan.pending (loadFinished (ctl srv')) = true /\
    loader (ctl srv') =
      fst (fst (controller.Apply (loader (ctl srv)) (Components file))).
Proof.
  intros (Hcap & Hlen & _ & _) Honce Er Happ Hd.
  destruct Happ as (l & l' & ld & changed & Hl & HU & HA).
  unfold reloadHandler, reload. rewrite Er.
  erewrite LoadFile_accepts by (eauto; rewrite Honce; reflexivity).
  destruct diags as [|d ds]; [congruence|]. simpl.
  eexists. split; [reflexivity|]. simpl.
  split; [reflexivity|]. split; [reflexivity|]. split.
  - apply pending_len. rewrite try_send_len by assumption. lia.
  - rewrite HA. reflexivity.
Qed.

(** X18. A reload whose file cannot be read or parsed never reaches the
    controller: LoadFile is not called and the controller is exactly as it
    was.  The answer is 400 with the error, and the ready flag is
    cleared although nothing changed. *)
Theorem unreadable_file_leaves_the_controller
    (fs : FileSystem) (configFile : string) (srv : Server) (err : error) :
  loadFlowFile fs configFile = inr err ->
  reloadHandler fs configFile srv =
    Ok (mkServer (ctl srv) false,
        mkResponse 400
          (String.append
             (String.append
                (String.append "reading config file "
                   (String.append (Quote configFile) ": "))
                (Error_string err))
             newline)) /\
  (errors_As_Diagnostics err = None ->
   forall fr, configFile <> "" ->
     forall l, logging.New io.Stderr logging.DefaultOptions = inl l ->
     Run_start fr fs configFile =
       Ok (RunReturned
             (wrapError (String.append "reading config file "
                           (String.append (Quote configFile) ": ")) err))).
Proof.
  intros Er. split.
  - unfold reloadHandler, reload. rewrite Er. reflexivity.
  - intros Has fr Hne l En. unfold Run_start, reload.
    apply String.eqb_neq in Hne. rewrite Hne, En, Er.
    destruct (newFlow _) as [f0|v] eqn:Ef.
    + simpl. rewrite Has. reflexivity.
    + exfalso. unfold newFlow in Ef. simpl in Ef. discriminate.
Qed.

Lemma addName_fold (infos : list ComponentInfo) (acc : list string) :
  NoDup acc ->
  NoDup (fold_left addName infos acc) /\
  forall name, In name (fold_left addName infos acc) <->
               In name acc \/ In name (map Name infos).
Proof.
  revert acc. induction infos as [|info infos IH]; intros acc Hnd; simpl.
  - split; [exact Hnd|]. intros name. tauto.
  - assert (NoDup (addName acc info) /\
            forall name, In name (addName acc info) <-> In name acc \/ Name info = name)
      as [Hnd' Hin'].
    { unfold addName.
      destruct (existsb (String.eqb (Name info)) acc) eqn:Ex.
      - split; [exact Hnd|]. intros name. split; [auto|].
        intros [Hin|<-]; [exact Hin|].
        apply existsb_exists in Ex as (x & Hx & Heq).
        apply String.eqb_eq in Heq. congruence.
      - split.
        + apply NoDup_app; [exact Hnd | repeat constructor; intros [] |].
          intros x Hx [<-|[]].
          assert (existsb (String.eqb (Name info)) acc = true) as Habs.
          { apply existsb_exists. exists (Name info). split; [exact Hx|].
            apply String.eqb_refl. }
          congruence.
        + intros name. rewrite in_app_iff. simpl. tauto. }
    destruct (IH _ Hnd') as [Hnd'' Hin'']. split; [exact Hnd''|].
    intros name. rewrite Hin'', Hin'. tauto.
Qed.

(** X19. The enabled components reported for usage statistics are the
    component names of the loaded components, each once, however many
    components share a name; with nothing loaded the list is empty. *)
Theorem enabledComponents_are_the_component_names (f : Flow) :
  NoDup (enabledComponents f) /\
  (forall name,
     In name (enabledComponents f) <->
     exists cn, In cn (controller.Components (loader f)) /\
                controller.ComponentName cn = name) /\
  (controller.Components (loader f) = [] -> enabledComponents f = []).
Proof.
  unfold enabledComponents.
  destruct (addName_fold (ComponentInfos f) [] (NoDup_nil _)) as [Hnd Hin].
  split; [exact Hnd|]. split.
  - intros name. rewrite Hin. unfold ComponentInfos. rewrite map_map. simpl.
    rewrite in_map_iff. split.
    + intros [[]|(cn & Hn & Hc)]. exists cn. split; [exact Hc|].
      rewrite <- Hn. symmetry.
      apply (newFromNode_fields cn (controller.OriginalGraph_Edges (loader f))).
    + intros (cn & Hc & Hn). right. exists cn. split; [|exact Hc].
      rewrite <- Hn.
      apply (newFromNode_fields cn (controller.OriginalGraph_Edges (loader f))).
  - unfold ComponentInfos. intros ->. reflexivity.
Qed.

End CommandProperties.

(** * Versioned integrations *)

Section VersionedProperties.

Context {P : config.Package}.

(** X20. UnmarshalYAML defers the decoding.  Whatever configs the value
    held, afterwards both are nil: MarshalYAML hands back the raw bytes
    just decoded, IsZero tests those bytes for emptiness, and the value is
    not usable by NewIntegrations, which reads through a nil pointer,
    until setVersion is called. *)
Theorem UnmarshalYAML_defers_decoding
    (c : config.VersionedIntegrations)
    (unmarshal : config.RawYAML -> config.RawYAML * option error) :
  let c' := fst (config.UnmarshalYAML c unmarshal) in
  snd (config.UnmarshalYAML c unmarshal) = snd (unmarshal (config.raw c)) /\
  config.raw c' = fst (unmarshal (config.raw c)) /\
  config.version c' = config.version c /\
  config.MarshalYAML c' = config.MarshalRaw (config.raw c') /\
  config.IsZero c' = (String.length (config.raw c') =? 0) /\
  config.NewIntegrations c' = Panic nilPointerDereference.
Proof.
  unfold config.UnmarshalYAML.
  destruct (unmarshal (config.raw c)) as [raw' err]. simpl.
  repeat split. unfold config.NewIntegrations. simpl.
  destruct (negb (config.version c =? config.integrationsVersion2)%Z); reflexivity.
Qed.

(** X21. After a setVersion that returns, with or without an error and
    whatever the value held before, the value is of that version all the
    way: MarshalYAML hands out the config of that version, freshly
    unmarshalled over the defaults, and NewIntegrations builds the
    subsystem of that version from the same config, without reading
    through nil.  For version 2 the extra integrations are appended to the
    unmarshalled configs exactly when unmarshalling succeeded.  Only the
    two known versions return. *)
Theorem setVersion_selects_the_config
    (c c' : config.VersionedIntegrations) (v : config.integrationsVersion)
    (err : option error) :
  config.setVersion c v = Ok (c', err) ->
  config.version c' = v /\ config.raw c' = config.raw c /\
  ((v = config.integrationsVersion1 /\
    exists cfg,
      (cfg, err) = config.UnmarshalStrictV1 (config.raw c) config.DefaultManagerConfig /\
      config.MarshalYAML c' = config.MarshalV1 cfg /\
      config.NewIntegrations c' =
        Ok match config.NewManager cfg with
           | inl m => inl (config.v1Integrations m)
           | inr e => inr e
           end) \/
   (v = config.integrationsVersion2 /\
    exists configs others,
      (configs, others, err) =
        config.UnmarshalStrictV2 (config.raw c)
          (config.DefaultSubsystemConfigs, config.DefaultSubsystemRest) /\
      let cfg := config.mkSubsystemOptions
                   (match err with
                    | None => configs ++ config.ExtraIntegrations c
                    | Some _ => configs
                    end) others in
      config.MarshalYAML c' = config.MarshalV2 cfg /\
      config.NewIntegrations c' =
        Ok match config.NewSubsystem (config.Configs cfg, config.rest cfg) with
           | inl s => inl (config.v2Integrations s)
           | inr e => inr e
           end)).
Proof.
  unfold config.setVersion. intros E.
  destruct (Z.eqb_spec v config.integrationsVersion1) as [->|H1].
  - destruct (config.UnmarshalStrictV1 (config.raw c) config.DefaultManagerConfig)
      as [cfg e] eqn:EU.
    injection E as <- <-. simpl. repeat split. left. split; [reflexivity|].
    exists cfg. repeat split.
    unfold config.NewIntegrations. simpl.
    destruct (config.NewManager cfg); reflexivity.
  - destruct (Z.eqb_spec v config.integrationsVersion2) as [->|H2]; [|discriminate].
    simpl in E.
    destruct (config.UnmarshalStrictV2 (config.raw c)
                (config.DefaultSubsystemConfigs, config.DefaultSubsystemRest))
      as [[configs others] e] eqn:EU.
    destruct e as [e|]; injection E as <- <-; simpl; repeat split; right;
      (split; [reflexivity|]); exists configs, others; repeat split;
      unfold config.NewIntegrations; simpl;
      match goal with
      | |- context [config.NewSubsystem ?x] => destruct (config.NewSubsystem x)
      end; reflexivity.
Qed.

(** X22. setVersion is idempotent: a second setVersion to the same version
    returns the same error and leaves the value as the first one made it.
    In particular the extra integrations are not appended a second time. *)
Theorem setVersion_is_idempotent
    (c c1 : config.VersionedIntegrations) (v : config.integrationsVersion)
    (err : option error) :
  config.setVersion c v = Ok (c1, err) ->
  config.setVersion c1 v = Ok (c1, err).
Proof.
  unfold config.setVersion. intros E.
  destruct (Z.eqb v config.integrationsVersion1) eqn:E1.
  - destruct (config.UnmarshalStrictV1 (config.raw c) config.DefaultManagerConfig)
      as [cfg e] eqn:EU.
    injection E as <- <-. simpl. rewrite EU. reflexivity.
  - destruct (Z.eqb v config.integrationsVersion2) eqn:E2; [|discriminate].
    destruct (config.UnmarshalStrictV2 (config.raw c)
                (config.Configs config.DefaultSubsystemOptions,
                 config.rest config.DefaultSubsystemOptions))
      as [[configs others] e] eqn:EU.
    simpl in EU.
    destruct e as [e|]; injection E as <- <-; simpl; rewrite EU; reflexivity.
Qed.

End VersionedProperties.

(** * The added properties on concrete configurations *)

Lemma run_synchronizes_loaded_components_witness :
  reachable demo.options demo.loaded /\
  loop demo.loaded = LoopSelect /\
  Chan.pending (loadFinished (flow demo.loaded)) = true /\
  exists s',
    exec demo.loaded LoopLoadFinished = Some s' /\
    trace s' = [EvSynchronize [demo.pods; demo.scrape]] /\
    Chan.pending (loadFinished (flow s')) = false.
Proof.
  assert (reachable demo.options demo.loaded) as Hreach.
  { apply (demo_after_reachable [CallLoadFile demo.goodFile]).
    vm_compute. reflexivity. }
  assert (loop demo.loaded = LoopSelect) as Hl by (vm_compute; reflexivity).
  assert (Chan.pending (loadFinished (flow demo.loaded)) = true) as Hp
    by (vm_compute; reflexivity).
  split; [exact Hreach|]. split; [exact Hl|]. split; [exact Hp|].
  destruct (run_synchronizes_loaded_components demo.options demo.loaded
              Hreach Hl Hp) as (s' & Hx & Ht & _ & _ & _ & _ & Hp').
  exists s'. split; [exact Hx|]. split; [|exact Hp'].
  rewrite Ht. vm_compute. reflexivity.
Defined.

Lemma load_notifications_coalesce_witness :
  let files := [demo.badFile; demo.goodFile; demo.warnFile] in
  let s1 := demo.after (map CallLoadFile files) in
  let s2 := demo.after (map CallLoadFile files ++ [LoopLoadFinished]) in
  reachable demo.options demo.started /\
  loop demo.started = LoopSelect /\
  execs demo.started (map CallLoadFile files) = Some s1 /\
  exec s1 LoopLoadFinished = Some s2 /\
  trace s2 = [EvSynchronize [demo.pods; demo.scrape]] /\
  exec s2 LoopLoadFinished = None.
Proof.
  intros files s1 s2.
  assert (reachable demo.options demo.started) as Hreach.
  { apply (demo_after_reachable []). vm_compute. reflexivity. }
  assert (loop demo.started = LoopSelect) as Hl by (vm_compute; reflexivity).
  assert (execs demo.started (map CallLoadFile files) = Some s1) as H1
    by (vm_compute; reflexivity).
  assert (exec s1 LoopLoadFinished = Some s2) as H2 by (vm_compute; reflexivity).
  split; [exact Hreach|]. split; [exact Hl|]. split; [exact H1|].
  split; [exact H2|].
  destruct (load_notifications_coalesce demo.options demo.started s1 s2 files
              Hreach Hl H1 H2) as [Ht Hn].
  split; [|exact Hn]. rewrite Ht. vm_compute. reflexivity.
Defined.

Lemma loop_exit_is_final_witness :
  let ls := [CallLoadFile demo.goodFile; CloseResume;
             WorkerExportsChange demo.pods] in
  let s' := demo.after ([CallLoadFile demo.goodFile; LoopLoadFinished;
                         CallClose; LoopDone] ++ ls) in
  loop demo.stopping = LoopExited /\
  execs demo.stopping ls = Some s' /\
  loop s' = LoopExited /\
  exists n, trace s' = trace demo.stopping ++ repeat EvSchedulerClose n.
Proof.
  intros ls s'.
  assert (loop demo.stopping = LoopExited) as Hl by (vm_compute; reflexivity).
  assert (execs demo.stopping ls = Some s') as Hs by (vm_compute; reflexivity).
  split; [exact Hl|]. split; [exact Hs|].
  exact (loop_exit_is_final demo.stopping s' ls Hl Hs).
Defined.

Lemma cancellation_is_never_lost_witness :
  let s := demo.after [CallLoadFile demo.goodFile; CallClose;
                       CallLoadFile demo.badFile;
                       WorkerExportsChange demo.pods] in
  reachable demo.options s /\
  closer s <> CloseNotCalled /\
  ctxDone (flow s) = true /\
  exists s', exec s LoopDone = Some s' /\ loop s' = LoopExited.
Proof.
  intros s.
  assert (reachable demo.options s) as Hreach.
  { apply (demo_after_reachable
             [CallLoadFile demo.goodFile; CallClose; CallLoadFile demo.badFile;
              WorkerExportsChange demo.pods]).
    vm_compute. reflexivity. }
  assert (closer s <> CloseNotCalled) as Hc by (vm_compute; discriminate).
  split; [exact Hreach|]. split; [exact Hc|].
  destruct (cancellation_is_never_lost demo.options s Hreach Hc) as [Hd Hx].
  split; [exact Hd|].
  destruct Hx as (s' & Hx & Hl & _); [vm_compute; reflexivity|].
  exists s'. split; assumption.
Defined.

Lemma waiting_Close_is_never_stuck_witness :
  reachable demo.options demo.stopping /\
  closer demo.stopping = CloseWaiting /\
  exists s',
    exec demo.stopping CloseResume = Some s' /\
    closer s' = CloseReturned None /\
    trace s' = trace demo.stopping ++ [EvSchedulerClose].
Proof.
  assert (reachable demo.options demo.stopping) as Hreach.
  { apply (demo_after_reachable
             [CallLoadFile demo.goodFile; LoopLoadFinished; CallClose; LoopDone]).
    vm_compute. reflexivity. }
  assert (closer demo.stopping = CloseWaiting) as Hc by (vm_compute; reflexivity).
  split; [exact Hreach|]. split; [exact Hc|].
  destruct (waiting_Close_is_never_stuck demo.options demo.stopping Hreach Hc)
    as [[Hl _]|[[Hl _]|(_ & s' & Hx & Hr & _ & Ht)]].
  - exfalso. vm_compute in Hl. discriminate Hl.
  - exfalso. vm_compute in Hl. discriminate Hl.
  - exists s'. split; [exact Hx|]. split; [exact Hr | exact Ht].
Defined.

Lemma queued_nodes_are_evaluated_before_the_loop_leaves_witness :
  let ls := CallClose :: repeat LoopTryDequeue 3 ++ [LoopDone; CloseResume] in
  let s' := demo.after
              ([CallLoadFile demo.goodFile; LoopLoadFinished;
                WorkerExportsChange demo.pods; LoopChan] ++ ls) in
  reachable demo.options demo.draining /\
  loop demo.draining = LoopDrain /\
  In demo.pods (controller.queued (updateQueue (flow demo.draining))) /\
  execs demo.draining ls = Some s' /\
  loop s' <> LoopDrain /\
  exec demo.draining LoopDone = None /\
  exists t, trace s' = trace demo.draining ++ t /\ In (EvEvaluate demo.pods) t.
Proof.
  intros ls s'.
  assert (reachable demo.options demo.draining) as Hreach.
  { apply (demo_after_reachable
             [CallLoadFile demo.goodFile; LoopLoadFinished;
              WorkerExportsChange demo.pods; LoopChan]).
    vm_compute. reflexivity. }
  assert (loop demo.draining = LoopDrain) as Hl by (vm_compute; reflexivity).
  assert (In demo.pods (controller.queued (updateQueue (flow demo.draining))))
    as Hin by (vm_compute; left; reflexivity).
  assert (execs demo.draining ls = Some s') as Hx by (vm_compute; reflexivity).
  assert (loop s' <> LoopDrain) as Hout by (vm_compute; discriminate).
  split; [exact Hreach|]. split; [exact Hl|]. split; [exact Hin|].
  split; [exact Hx|]. split; [exact Hout|].
  destruct (queued_nodes_are_evaluated_before_the_loop_leaves
              demo.options demo.draining demo.pods Hreach Hl Hin)
    as (Hdone & _ & Hall).
  split; [exact Hdone|]. exact (Hall ls s' Hx Hout).
Defined.

Lemma data_path_registerer_and_address_are_fixed_witness :
  reachable demo.options demo.stopping /\
  controller.DataPath (globals (flow demo.stopping)) = "data-agent/" /\
  controller.HTTPListenAddr (globals (flow demo.stopping)) = "127.0.0.1:12345".
Proof.
  assert (reachable demo.options demo.stopping) as Hreach.
  { apply (demo_after_reachable
             [CallLoadFile demo.goodFile; LoopLoadFinished; CallClose; LoopDone]).
    vm_compute. reflexivity. }
  split; [exact Hreach|].
  destruct (data_path_registerer_and_address_are_fixed demo.options demo.stopping
              Hreach)
    as (_ & _ & _ & Hd & _ & Ha).
  split; [exact Hd | exact Ha].
Defined.

Lemma only_loads_and_evaluations_change_the_listing_witness :
  let s' := demo.after [CallLoadFile demo.goodFile; LoopLoadFinished] in
  exec demo.loaded LoopLoadFinished = Some s' /\
  (forall file : @File demo.Logging demo.Controller,
     LoopLoadFinished <> CallLoadFile file) /\
  @LoopLoadFinished demo.Logging demo.Controller <> LoopTryDequeue /\
  map ID (ComponentInfos (flow s')) = map ID (ComponentInfos (flow demo.loaded)) /\
  map References (ComponentInfos (flow s')) =
    map References (ComponentInfos (flow demo.loaded)).
Proof.
  intros s'.
  assert (exec demo.loaded LoopLoadFinished = Some s') as Hx
    by (vm_compute; reflexivity).
  assert (forall file : @File demo.Logging demo.Controller,
            LoopLoadFinished <> CallLoadFile file) as H1 by discriminate.
  assert (@LoopLoadFinished demo.Logging demo.Controller <> LoopTryDequeue) as H2
    by discriminate.
  split; [exact Hx|]. split; [exact H1|]. split; [exact H2|].
  destruct (only_loads_and_evaluations_change_the_listing demo.loaded s'
              LoopLoadFinished Hx H1 H2) as (Hi & _ & _ & Hr & _).
  split; [exact Hi | exact Hr].
Defined.

Lemma New_controller_is_idle_witness :
  New demo.options = Ok demo.started /\
  exec demo.started LoopDone = None /\
  exec demo.started LoopChan = None /\
  exec demo.started LoopLoadFinished = None.
Proof.
  assert (New demo.options = Ok demo.started) as HN by (vm_compute; reflexivity).
  split; [exact HN|].
  destruct (New_controller_is_idle demo.options demo.started HN)
    as (H1 & H2 & H3 & _).
  split; [exact H1|]. split; [exact H2 | exact H3].
Defined.

Lemma Run_serves_only_after_a_clean_load_witness :
  @Run_start demo.Logging demo.Controller demoHost.Host
     demoHost.flags demoHost.disk "agent.river" = Ok (RunServing demoHost.served) /\
  loadedOnce (ctl demoHost.served) = true /\
  Chan.pending (loadFinished (ctl demoHost.served)) = true /\
  StatusCode (readyHandler demoHost.served) = 200.
Proof.
  assert (@Run_start demo.Logging demo.Controller demoHost.Host
            demoHost.flags demoHost.disk "agent.river"
          = Ok (RunServing demoHost.served)) as HR by (vm_compute; reflexivity).
  split; [exact HR|].
  destruct (@Run_serves_only_after_a_clean_load demo.Logging demo.Controller
              demoHost.Host demoHost.flags demoHost.disk "agent.river"
              demoHost.served HR) as (_ & _ & Ho & Hp & _ & Hs).
  split; [exact Ho|]. split; [exact Hp | exact Hs].
Defined.

Lemma Run_returns_on_any_diagnostic_witness :
  "warn.river" <> "" /\
  @logging.New demo.Logging io.Stderr (@logging.DefaultOptions demo.Logging)
    = inl (io.Stderr, demo.logfmt) /\
  @loadFlowFile demo.Logging demo.Controller demoHost.Host demoHost.disk "warn.river"
    = inl demo.warnFile /\
  reachesApply demoHost.fresh demo.warnFile [demo.aWarning] /\
  [demo.aWarning] <> [] /\
  @Run_start demo.Logging demo.Controller demoHost.Host
     demoHost.flags demoHost.disk "warn.river" =
    Ok (RunReturned (errorString "could not perform the initial load successfully")).
Proof.
  assert ("warn.river" <> "") as Hne by discriminate.
  assert (@logging.New demo.Logging io.Stderr (@logging.DefaultOptions demo.Logging)
          = inl (io.Stderr, demo.logfmt)) as En by (vm_compute; reflexivity).
  assert (@newFlow demo.Logging demo.Controller
            (@mkOptions demo.Logging demo.Controller
               (Some (io.Stderr, demo.logfmt)) (storagePath demoHost.flags)
               (@DefaultRegisterer demo.Logging demo.Controller demoHost.Host)
               (httpListenAddr demoHost.flags))
          = Ok demoHost.fresh) as Ef by (vm_compute; reflexivity).
  assert (@loadFlowFile demo.Logging demo.Controller demoHost.Host demoHost.disk
            "warn.river" = inl demo.warnFile) as Er by (vm_compute; reflexivity).
  assert (reachesApply demoHost.fresh demo.warnFile [demo.aWarning]) as Happ.
  { exists (io.Stderr, demo.logfmt), (io.Stderr, demo.logfmt),
      (demo.mkLoader [demo.pods; demo.scrape]
         [dag.mkEdge (dag.mkNode "prometheus.scrape.app")
                     (dag.mkNode "discovery.kubernetes.pods")]), [].
    repeat split; vm_compute; reflexivity. }
  assert ([demo.aWarning] <> []) as Hd by discriminate.
  split; [exact Hne|]. split; [exact En|]. split; [exact Er|].
  split; [exact Happ|]. split; [exact Hd|].
  exact (@Run_returns_on_any_diagnostic demo.Logging demo.Controller demoHost.Host
           demoHost.flags demoHost.disk "warn.river" _ _ _ _ Hne En Ef Er Happ Hd).
Defined.

Lemma reload_and_ready_agree_witness :
  @reloadHandler demo.Logging demo.Controller demoHost.Host demoHost.disk
     "bad.river" demoHost.serving
    = Ok (fst demoHost.badReload, snd demoHost.badReload) /\
  StatusCode (snd demoHost.badReload) = 400 /\
  StatusCode (readyHandler (fst demoHost.badReload)) = 503.
Proof.
  assert (@reloadHandler demo.Logging demo.Controller demoHost.Host demoHost.disk
            "bad.river" demoHost.serving
          = Ok (fst demoHost.badReload, snd demoHost.badReload)) as HR
    by (vm_compute; reflexivity).
  split; [exact HR|].
  destruct (@reload_and_ready_agree demo.Logging demo.Controller demoHost.Host
              demoHost.disk "bad.river" demoHost.serving _ _ HR)
    as (_ & _ & _ & _ & H400).
  assert (StatusCode (snd demoHost.badReload) = 400) as Hs
    by (vm_compute; reflexivity).
  split; [exact Hs|]. apply H400. exact Hs.
Defined.

Lemma failed_reload_is_applied_witness :
  wf (ctl demoHost.serving) /\
  loadedOnce (ctl demoHost.serving) = true /\
  @loadFlowFile demo.Logging demo.Controller demoHost.Host demoHost.disk "bad.river"
    = inl demo.badFile /\
  reachesApply (ctl demoHost.serving) demo.badFile [demo.anError] /\
  [demo.anError] <> [] /\
  exists srv',
    (exists resp,
       @reloadHandler demo.Logging demo.Controller demoHost.Host demoHost.disk
          "bad.river" demoHost.serving = Ok (srv', resp) /\
       StatusCode resp = 400) /\
    ready srv' = false /\
    loadedOnce (ctl srv') = true /\
    Chan.pending (loadFinished (ctl srv')) = true.
Proof.
  assert (wf (ctl demoHost.serving)) as Hwf.
  { unfold wf. vm_compute. repeat split. apply le_0_n. }
  assert (loadedOnce (ctl demoHost.serving) = true) as Ho
    by (vm_compute; reflexivity).
  assert (@loadFlowFile demo.Logging demo.Controller demoHost.Host demoHost.disk
            "bad.river" = inl demo.badFile) as Er by (vm_compute; reflexivity).
  assert (reachesApply (ctl demoHost.serving) demo.badFile [demo.anError]) as Happ.
  { exists (io.Discard, demo.logfmt), (io.Discard, demo.logfmt),
      (demo.mkLoader [demo.pods; demo.scrape]
         [dag.mkEdge (dag.mkNode "prometheus.scrape.app")
                     (dag.mkNode "discovery.kubernetes.pods")]), [].
    repeat split; vm_compute; reflexivity. }
  assert ([demo.anError] <> []) as Hd by discriminate.
  split; [exact Hwf|]. split; [exact Ho|]. split; [exact Er|].
  split; [exact Happ|]. split; [exact Hd|].
  destruct (@failed_reload_is_applied demo.Logging demo.Controller demoHost.Host
              demoHost.disk "bad.river" demoHost.serving demo.badFile
              [demo.anError] Hwf Ho Er Happ Hd)
    as (srv' & HR & Hr & Ho' & Hp & _).
  exists srv'. split; [|auto]. eexists. split; [exact HR | reflexivity].
Defined.

Lemma unreadable_file_leaves_the_controller_witness :
  @loadFlowFile demo.Logging demo.Controller demoHost.Host demoHost.disk "nope.river"
    = inr demoHost.notExist /\
  exists resp,
    @reloadHandler demo.Logging demo.Controller demoHost.Host demoHost.disk
       "nope.river" demoHost.serving
      = Ok (mkServer (ctl demoHost.serving) false, resp) /\
    StatusCode resp = 400.
Proof.
  assert (@loadFlowFile demo.Logging demo.Controller demoHost.Host demoHost.disk
            "nope.river" = inr demoHost.notExist) as Er by (vm_compute; reflexivity).
  split; [exact Er|].
  destruct (@unreadable_file_leaves_the_controller demo.Logging demo.Controller
              demoHost.Host demoHost.disk "nope.river" demoHost.serving
              demoHost.notExist Er) as [HR _].
  eexists. split; [exact HR | reflexivity].
Defined.

Lemma setVersion_selects_the_config_witness :
  @config.setVersion demoConfig.Package demoConfig.decoded config.integrationsVersion2
    = Ok (demoConfig.versioned2, None) /\
  config.version demoConfig.versioned2 = config.integrationsVersion2 /\
  config.MarshalYAML demoConfig.versioned2 =
    config.MarshalV2 (@config.mkSubsystemOptions demoConfig.Package
                        ["node_exporter"; "agent"; "extra"] tt).
Proof.
  assert (@config.setVersion demoConfig.Package demoConfig.decoded
            config.integrationsVersion2
          = Ok (demoConfig.versioned2, None)) as HS by (vm_compute; reflexivity).
  split; [exact HS|].
  destruct (@setVersion_selects_the_config demoConfig.Package demoConfig.decoded
              demoConfig.versioned2 config.integrationsVersion2 None HS)
    as (Hv & _ & _).
  split; [exact Hv|]. vm_compute. reflexivity.
Defined.

Lemma setVersion_is_idempotent_witness :
  @config.setVersion demoConfig.Package demoConfig.decoded config.integrationsVersion2
    = Ok (demoConfig.versioned2, None) /\
  @config.setVersion demoConfig.Package demoConfig.versioned2
     config.integrationsVersion2
    = Ok (demoConfig.versioned2, None).
Proof.
  assert (@config.setVersion demoConfig.Package demoConfig.decoded
            config.integrationsVersion2
          = Ok (demoConfig.versioned2, None)) as HS by (vm_compute; reflexivity).
  split; [exact HS|].
  exact (@setVersion_is_idempotent demoConfig.Package demoConfig.decoded
           demoConfig.versioned2 config.integrationsVersion2 None HS).
Defined.
